(** * memtop: sampler, rate engine, scheduler and renderer helpers

    A shallow embedding of [cmd/memtop/main.go].  Go values are modelled as
    the program has them:
    - [float64] is Rocq's primitive binary64 [float]; its operations are the
      IEEE 754 ones and are related to [spec_float] by the axioms of
      [FloatAxioms];
    - [int], [int64] and [time.Duration] are [Z] with the 64-bit wrap-around
      written out ([Int64.wrap]);
    - [string] is a sequence of bytes; [range] and [strings.Fields] decode
      UTF-8 the way Go does;
    - [map[string]T] is [gmap string T]; a nil-able pointer or map is an
      [option];
    - the network, the clock and the terminal are explicit inputs
      ([exchange], [occurrence]) and explicit outputs ([effect],
      [cellWrite]). *)

From Stdlib Require Import ZArith Lia Floats Ascii DecimalString.
From stdpp Require Import gmap strings list.

Local Open Scope Z_scope.

(** ** Machine integers *)

Module Int64.
Definition min_int : Z := - 2 ^ 63.
Definition max_int : Z := 2 ^ 63 - 1.

Definition in_range (z : Z) : Prop := min_int <= z <= max_int.

(** Two's complement wrap-around of Go's signed 64-bit arithmetic. *)
Definition wrap (z : Z) : Z := (z + 2 ^ 63) mod 2 ^ 64 - 2 ^ 63.

Definition add (a b : Z) : Z := wrap (a + b).
Definition sub (a b : Z) : Z := wrap (a - b).
Definition mul (a b : Z) : Z := wrap (a * b).
(** Go's [/] and [%] truncate toward zero. *)
Definition quot (a b : Z) : Z := wrap (Z.quot a b).
Definition rem (a b : Z) : Z := Z.rem a b.
End Int64.

(** ** float64 conversions and [math.Round] *)

(** [float64(n)] for an integer [n]: the nearest binary64 value. *)
Definition float64_of_int (z : Z) : float :=
  SF2Prim (binary_normalize prec emax z 0 false).

(** The integer part of a float, when it has one. *)
Definition SFtrunc (x : spec_float) : option Z :=
  match x with
  | S754_zero _ => Some 0
  | S754_finite s m e => Some (cond_Zopp s (Z.shiftl (Z.pos m) e))
  | S754_infinity _ | S754_nan => None
  end.

(** The result of a float-to-integer conversion whose operand does not fit.
    The Go specification leaves it implementation-dependent; this is what
    the amd64 compiler produces (CVTTSD2SQ's "integer indefinite" value). *)
Definition int64_indefinite : Z := Int64.min_int.

(** [int64(f)], [int(f)] and [time.Duration(f)]: truncation toward zero. *)
Definition int64_of_float64 (f : float) : Z :=
  match SFtrunc (Prim2SF f) with
  | Some z =>
      if (Int64.min_int <=? z) && (z <=? Int64.max_int) then z
      else int64_indefinite
  | None => int64_indefinite
  end.

Module math.
(** [math.Round]: nearest integer, halves away from zero; zeros,
    infinities and NaN are returned unchanged. *)
Definition Round (f : float) : float :=
  match Prim2SF f with
  | S754_finite s m e =>
      if 0 <=? e then f
      else
        let d := 2 ^ (- e) in
        let q := Z.pos m / d in
        let r := Z.pos m mod d in
        let q' := if d <=? 2 * r then q + 1 else q in
        if q' =? 0 then (if s then PrimFloat.neg_zero else PrimFloat.zero)
        else float64_of_int (cond_Zopp s q')
  | _ => f
  end.
End math.

(** ** Package time *)

Module time.
(** A [Duration] is an int64 count of nanoseconds. *)
Definition Duration := Z.
Definition Nanosecond : Duration := 1.
Definition Microsecond : Duration := 1000 * Nanosecond.
Definition Millisecond : Duration := 1000 * Microsecond.
Definition Second : Duration := 1000 * Millisecond.
Definition Minute : Duration := 60 * Second.
Definition Hour : Duration := 60 * Minute.

Definition minDuration : Duration := Int64.min_int.
Definition maxDuration : Duration := Int64.max_int.

(** An instant: the clock reading in nanoseconds.  Only differences of
    instants are observed by the program. *)
Definition Time := Z.

(** [t.Sub(u)]: the difference, saturated to the range of [Duration]. *)
Definition Sub (t u : Time) : Duration :=
  if t - u <? minDuration then minDuration
  else if maxDuration <? t - u then maxDuration
  else t - u.

(** [d.Seconds()]: [float64(d / Second) + float64(d % Second) / 1e9]. *)
Definition Seconds (d : Duration) : float :=
  let sec := Int64.quot d Second in
  let nsec := Int64.rem d Second in
  (float64_of_int sec + float64_of_int nsec / 1e9)%float.
End time.

(** ** Snapshot model *)

Record statsSnapshot := {
  Timestamp : time.Time;
  Values : gmap string float;
  Raw : gmap string string
}.

Definition defaultTimeout : time.Duration := 2 * time.Second.

(** ** Rate engine *)

(** The seconds between two snapshots, as [calculateRates] computes them. *)
Definition elapsedSeconds (curr prev : statsSnapshot) : float :=
  time.Seconds (time.Sub (Timestamp curr) (Timestamp prev)).

(** The body of the [range curr.Values] loop. *)
Definition rateStep (prevValues : gmap string float) (elapsed : float)
    (key : string) (currentVal : float) (result : gmap string float)
    : gmap string float :=
  match prevValues !! key with
  | Some prevVal =>
      let diff := (currentVal - prevVal)%float in
      let diff := if (diff <? 0)%float then 0%float else diff in
      <[key := (diff / elapsed)%float]> result
  | None => result
  end.

Definition calculateRates (curr prev : option statsSnapshot)
    : gmap string float :=
  let result : gmap string float := ∅ in
  match curr, prev with
  | Some curr, Some prev =>
      let elapsed := elapsedSeconds curr prev in
      if (elapsed <=? 0)%float then result
      else map_fold (rateStep (Values prev) elapsed) result (Values curr)
  | _, _ => result
  end.

(** ** Strings: UTF-8 decoding, [range], package unicode and package strings *)

Definition rune := Z.

Definition byteVal (c : ascii) : Z := Z.of_N (N_of_ascii c).

Module utf8.
Definition RuneError : rune := 65533.

(** A continuation byte [10xxxxxx] within the bounds [lo..hi]. *)
Definition cont (lo hi : Z) (s : string) : option (Z * string) :=
  match s with
  | String c s' =>
      let b := byteVal c in
      if (lo <=? b) && (b <=? hi) then Some (Z.land b 63, s') else None
  | EmptyString => None
  end.

(** [utf8.DecodeRuneInString]: the first rune of a non-empty string and its
    width in bytes; an invalid or truncated encoding is [RuneError] with
    width 1. *)
Definition DecodeRuneInString (s : string) : rune * nat :=
  match s with
  | EmptyString => (RuneError, 0%nat)
  | String c s1 =>
      let b0 := byteVal c in
      if b0 <? 128 then (b0, 1%nat)
      else if (194 <=? b0) && (b0 <=? 223) then
        match cont 128 191 s1 with
        | Some (b1, _) => (Z.shiftl (Z.land b0 31) 6 + b1, 2%nat)
        | None => (RuneError, 1%nat)
        end
      else if (224 <=? b0) && (b0 <=? 239) then
        let lo := if b0 =? 224 then 160 else 128 in
        let hi := if b0 =? 237 then 159 else 191 in
        match cont lo hi s1 with
        | Some (b1, s2) =>
            match cont 128 191 s2 with
            | Some (b2, _) =>
                (Z.shiftl (Z.land b0 15) 12 + Z.shiftl b1 6 + b2, 3%nat)
            | None => (RuneError, 1%nat)
            end
        | None => (RuneError, 1%nat)
        end
      else if (240 <=? b0) && (b0 <=? 244) then
        let lo := if b0 =? 240 then 144 else 128 in
        let hi := if b0 =? 244 then 143 else 191 in
        match cont lo hi s1 with
        | Some (b1, s2) =>
            match cont 128 191 s2 with
            | Some (b2, s3) =>
                match cont 128 191 s3 with
                | Some (b3, _) =>
                    (Z.shiftl (Z.land b0 7) 18 + Z.shiftl b1 12
                     + Z.shiftl b2 6 + b3, 4%nat)
                | None => (RuneError, 1%nat)
                end
            | None => (RuneError, 1%nat)
            end
        | None => (RuneError, 1%nat)
        end
      else (RuneError, 1%nat)
  end.
End utf8.

(** [for i, r := range s]: the byte offset and the rune of every encoded
    character of [s], in order.  [i] is the offset of the next byte and
    [skip] the number of bytes still belonging to the previous rune. *)
Fixpoint rangeFrom (i : Z) (skip : nat) (s : string) : list (Z * rune) :=
  match s with
  | EmptyString => []
  | String _ s' =>
      match skip with
      | S k => rangeFrom (i + 1) k s'
      | O =>
          let '(r, size) := utf8.DecodeRuneInString s in
          (i, r) :: rangeFrom (i + 1) (size - 1) s'
      end
  end.

Definition rangeString (s : string) : list (Z * rune) := rangeFrom 0 0 s.

Module unicode.
(** [unicode.IsSpace]: the White_Space property. *)
Definition IsSpace (r : rune) : bool :=
  ((9 <=? r) && (r <=? 13)) || (r =? 32) || (r =? 133) || (r =? 160)
  || (r =? 5760) || ((8192 <=? r) && (r <=? 8202)) || (r =? 8232)
  || (r =? 8233) || (r =? 8239) || (r =? 8287) || (r =? 12288).
End unicode.

Module strings.
(** The loop of [strings.FieldsFunc].  [skip] and [sp] describe the rune the
    next byte belongs to when it is a continuation; [cur] is the field being
    read, if any. *)
Fixpoint fieldsFrom (f : rune -> bool) (skip : nat) (sp : bool)
    (cur : option string) (s : string) : list string :=
  match s with
  | EmptyString =>
      match cur with Some w => [w] | None => [] end
  | String c s' =>
      let '(sp, skip) :=
        match skip with
        | S k => (sp, k)
        | O => let '(r, size) := utf8.DecodeRuneInString s in
               (f r, (size - 1)%nat)
        end in
      if sp then
        match cur with
        | Some w => w :: fieldsFrom f skip sp None s'
        | None => fieldsFrom f skip sp None s'
        end
      else
        fieldsFrom f skip sp
          (Some (match cur with Some w => w | None => EmptyString end
                 +:+ String c EmptyString)) s'
  end.

Definition FieldsFunc (s : string) (f : rune -> bool) : list string :=
  fieldsFrom f 0 false None s.

(** [strings.Fields]: split around runs of white space. *)
Definition Fields (s : string) : list string := FieldsFunc s unicode.IsSpace.

(** [strings.Join]. *)
Fixpoint Join (elems : list string) (sep : string) : string :=
  match elems with
  | [] => EmptyString
  | [e] => e
  | e :: rest => e +:+ sep +:+ Join rest sep
  end.
End strings.

(** ** Package strconv: [ParseFloat(s, 64)]

    Modelled from the Go library's documentation and sources
    ([strconv/atof.go]); the repository only calls it.  [ParseFloat] is
    [Some f] when Go returns [f] with a nil error and [None] otherwise
    (syntax error, or a value out of the float64 range). *)

Module strconv.
Definition bytesOf (s : string) : list Z := byteVal <$> String.list_ascii_of_string s.

Definition lower (c : Z) : Z := Z.lor c 32.

Definition isDigit (c : Z) : bool := (48 <=? c) && (c <=? 57).
Definition isHexLetter (c : Z) : bool := (97 <=? lower c) && (lower c <=? 102).

Fixpoint commonPrefixLenIgnoreCase (s prefix : list Z) : nat :=
  match s, prefix with
  | c :: s', p :: prefix' =>
      let c := if (65 <=? c) && (c <=? 90) then c + 32 else c in
      if c =? p then S (commonPrefixLenIgnoreCase s' prefix') else O
  | _, _ => O
  end.

(** The named values: an optionally signed "inf" or "infinity", or an
    unsigned "nan", in any case; with the number of bytes they take. *)
Definition special (s : list Z) : option (float * nat) :=
  let inf (sign : float) (nsign : nat) (t : list Z) :=
    let n := commonPrefixLenIgnoreCase t (bytesOf "infinity") in
    let n := if (3 <? n)%nat && (n <? 8)%nat then 3%nat else n in
    if (n =? 3)%nat || (n =? 8)%nat then Some (sign, (nsign + n)%nat)
    else None in
  match s with
  | [] => None
  | c :: t =>
      if c =? 43 then inf infinity 1%nat t
      else if c =? 45 then inf neg_infinity 1%nat t
      else if (c =? 105) || (c =? 73) then inf infinity 0%nat s
      else if (c =? 110) || (c =? 78) then
        if (commonPrefixLenIgnoreCase s (bytesOf "nan") =? 3)%nat
        then Some (nan, 3%nat) else None
      else None
  end.

(** What [readFloat] has read of the mantissa: the integer its digits
    spell, how many of them follow the point, and what was seen. *)
Record mantissa := {
  mantDigits : Z;
  mantFrac : Z;
  sawdot : bool;
  sawdigits : bool
}.

Fixpoint readMantissa (hex : bool) (s : list Z) (m : mantissa)
    : mantissa * list Z :=
  let base := if hex then 16 else 10 in
  let push d :=
    {| mantDigits := mantDigits m * base + d;
       mantFrac := if sawdot m then mantFrac m + 1 else mantFrac m;
       sawdot := sawdot m; sawdigits := true |} in
  match s with
  | [] => (m, [])
  | c :: s' =>
      if c =? 95 then readMantissa hex s' m
      else if c =? 46 then
        if sawdot m then (m, s)
        else readMantissa hex s'
               {| mantDigits := mantDigits m; mantFrac := mantFrac m;
                  sawdot := true; sawdigits := sawdigits m |}
      else if isDigit c then readMantissa hex s' (push (c - 48))
      else if hex && isHexLetter c then
        readMantissa hex s' (push (lower c - 97 + 10))
      else (m, s)
  end.

Fixpoint readExponent (s : list Z) (e : Z) : Z * list Z :=
  match s with
  | c :: s' =>
      if c =? 95 then readExponent s' e
      else if isDigit c then
        readExponent s' (if e <? 10000 then e * 10 + (c - 48) else e)
      else (e, s)
  | [] => (e, [])
  end.

(** [underscoreOK]: an underscore stands only between digits, or between a
    base prefix and a digit.  [saw] is the last byte's class: 94 at the
    beginning, 48 after a digit or prefix, 95 after an underscore and 33
    otherwise. *)
Fixpoint underscoreLoop (hex : bool) (saw : Z) (s : list Z) : bool :=
  match s with
  | [] => negb (saw =? 95)
  | c :: s' =>
      if isDigit c || (hex && isHexLetter c) then underscoreLoop hex 48 s'
      else if c =? 95 then
        if saw =? 48 then underscoreLoop hex 95 s' else false
      else if saw =? 95 then false
      else underscoreLoop hex 33 s'
  end.

Definition underscoreOK (s : list Z) : bool :=
  let s := match s with
           | c :: t => if (c =? 45) || (c =? 43) then t else s
           | [] => s
           end in
  match s with
  | c0 :: c1 :: t =>
      if (c0 =? 48)
         && ((lower c1 =? 98) || (lower c1 =? 111) || (lower c1 =? 120))
      then underscoreLoop (lower c1 =? 120) 48 t
      else underscoreLoop false 94 s
  | _ => underscoreLoop false 94 s
  end.

(** The number [readFloat] reads when the whole of [s] is one literal:
    sign, base, mantissa digits, digits after the point, exponent. *)
Definition readFloat (s : list Z) : option (bool * bool * Z * Z * Z) :=
  let '(neg, t) :=
    match s with
    | c :: t => if c =? 43 then (false, t)
                else if c =? 45 then (true, t) else (false, s)
    | [] => (false, s)
    end in
  let '(hex, t) :=
    match t with
    | c0 :: c1 :: c2 :: r =>
        if (c0 =? 48) && (lower c1 =? 120) then (true, c2 :: r)
        else (false, t)
    | _ => (false, t)
    end in
  let '(m, t) :=
    readMantissa hex t
      {| mantDigits := 0; mantFrac := 0; sawdot := false;
         sawdigits := false |} in
  if negb (sawdigits m) then None
  else
    let expChar := if hex then 112 else 101 in
    let done (e : Z) (rest : list Z) :=
      match rest with
      | [] =>
          if existsb (Z.eqb 95) s && negb (underscoreOK s) then None
          else Some (neg, hex, mantDigits m, mantFrac m, e)
      | _ :: _ => None
      end in
    match t with
    | c :: t' =>
        if lower c =? expChar then
          let '(esign, t'') :=
            match t' with
            | d :: r => if d =? 43 then (1, r)
                        else if d =? 45 then (-1, r) else (1, t')
            | [] => (1, t')
            end in
          match t'' with
          | d :: _ =>
              if isDigit d then
                let '(e, rest) := readExponent t'' 0 in
                done (e * esign) rest
              else None
          | [] => None
          end
        else if hex then None
        else done 0 t
    | [] => if hex then None else done 0 t
    end.

(** The binary64 value nearest to [(-1)^neg * m * 10^e], ties to even. *)
Definition roundDecimal (neg : bool) (m e : Z) : float :=
  match m with
  | Z0 => if neg then PrimFloat.neg_zero else PrimFloat.zero
  | _ =>
      if 0 <=? e then
        SF2Prim (binary_normalize prec emax (cond_Zopp neg (m * 10 ^ e)) 0 false)
      else
        let '(q, e', l) := SFdiv_core_binary prec emax m 0 (10 ^ (- e)) 0 in
        SF2Prim (binary_round_aux prec emax neg q e' l)
  end.

(** The binary64 value nearest to [(-1)^neg * m * 2^e], ties to even. *)
Definition roundBinary (neg : bool) (m e : Z) : float :=
  match m with
  | Z0 => if neg then PrimFloat.neg_zero else PrimFloat.zero
  | _ => SF2Prim (binary_normalize prec emax (cond_Zopp neg m) e false)
  end.

Definition ParseFloat (s : string) : option float :=
  let b := bytesOf s in
  match special b with
  | Some (f, n) => if (n =? length b)%nat then Some f else None
  | None =>
      match readFloat b with
      | Some (neg, hex, m, frac, e) =>
          let f := if hex then roundBinary neg m (e - 4 * frac)
                   else roundDecimal neg m (e - frac) in
          if is_infinity f then None else Some f
      | None => None
      end
  end.
End strconv.

(** ** Sampler *)

Definition error := string.

(** What the outside world answers during one call of [fetchStats]: the
    errors, if any, of [net.DialTimeout], [conn.SetDeadline] and the write
    of the request; the lines [bufio.Scanner] delivers in order, for as
    long as [Scan] is called; what [scanner.Err] returns when it is called
    after the loop, however the loop was left; and the reading of
    [time.Now] when the snapshot is built. *)
Record exchange := {
  dialErr : option error;
  deadlineErr : option error;
  writeErr : option error;
  scanLines : list string;
  scanErr : option error;
  now : time.Time
}.

Section Sampler.
(** [strconv.ParseFloat(value, 64)], [None] standing for a non-nil error. *)
Variable ParseFloat : string -> option float.

(** One iteration of the scanning loop on a line other than the terminator:
    the maps [values] and [raw] after it. *)
Definition statLine (line : string)
    (st : gmap string float * gmap string string)
    : gmap string float * gmap string string :=
  let '(values, raw) := st in
  let fields := strings.Fields line in
  if (length fields <? 3)%nat || negb (String.eqb (nth 0 fields "") "STAT")
  then (values, raw)
  else
    let key := nth 1 fields "" in
    let value := strings.Join (drop 2 fields) " " in
    let raw := <[key := value]> raw in
    match ParseFloat value with
    | Some number => (<[key := number]> values, raw)
    | None => (values, raw)
    end.

(** [for scanner.Scan() { ... }]: the maps after the loop, and whether it
    was left by [break] on the terminator line. *)
Fixpoint scanLoop (lines : list string)
    (st : gmap string float * gmap string string)
    : gmap string float * gmap string string * bool :=
  match lines with
  | [] => (st, false)
  | line :: rest =>
      if String.eqb line "END" then (st, true)
      else scanLoop rest (statLine line st)
  end.

Definition fetchStats (x : exchange) : error + statsSnapshot :=
  match dialErr x with
  | Some err => inl err
  | None =>
  match deadlineErr x with
  | Some err => inl err
  | None =>
  match writeErr x with
  | Some err => inl err
  | None =>
      let '(values, raw, _) := scanLoop (scanLines x) (∅, ∅) in
      match scanErr x with
      | Some err => inl err
      | None =>
          inr {| Timestamp := now x; Values := values; Raw := raw |}
      end
  end end end.

(** ** Event loop *)

(** The key codes the loop distinguishes; every other code of [tcell.Key],
    [KeyRune] included, is [KeyOther]. *)
Inductive Key := KeyEscape | KeyCtrlC | KeyOther.

Definition Key_eqb (a b : Key) : bool :=
  match a, b with
  | KeyEscape, KeyEscape | KeyCtrlC, KeyCtrlC | KeyOther, KeyOther => true
  | _, _ => false
  end.

(** The events [screen.PollEvent] delivers: a key with its code and rune, a
    resize, or anything else. *)
Inductive Event :=
  | EventKey (key : Key) (r : rune)
  | EventResize
  | EventOther.

(** What one turn of the [select] receives: a tick of the timer, together
    with the world's answers to the sample it triggers; an event from the
    input channel; or the closing of that channel. *)
Inductive occurrence :=
  | Tick (x : exchange)
  | Input (ev : Event)
  | InputClosed.

(** The variables of [main] that the loop reads and writes. *)
Record loopState := {
  currentStats : option statsSnapshot;
  prevStats : option statsSnapshot;
  rates : option (gmap string float);
  lastErr : option error
}.

(** Calls on the screen made by the loop. *)
Inductive effect :=
  | DrawScreen (stats : option statsSnapshot)
      (rates : option (gmap string float)) (err : option error)
  | Sync.

Definition initialState : loopState :=
  {| currentStats := None; prevStats := None; rates := None;
     lastErr := None |}.

Definition draw (st : loopState) : effect :=
  DrawScreen (currentStats st) (rates st) (lastErr st).

Definition isRune (r : rune) (c : string) : bool :=
  match c with
  | String a EmptyString => r =? byteVal a
  | _ => false
  end.

(** One iteration of the [for { select { ... } }] loop: the next state, the
    screen calls in order, and whether the loop goes on. *)
Definition step (st : loopState) (o : occurrence)
    : loopState * list effect * bool :=
  match o with
  | Tick x =>
      let st' :=
        match fetchStats x with
        | inl err =>
            {| currentStats := currentStats st; prevStats := prevStats st;
               rates := rates st; lastErr := Some err |}
        | inr stats =>
            {| currentStats := Some stats; prevStats := Some stats;
               rates :=
                 match prevStats st with
                 | Some prev =>
                     Some (calculateRates (Some stats) (Some prev))
                 | None => Some ∅
                 end;
               lastErr := None |}
        end in
      (st', [draw st'], true)
  | InputClosed => (st, [], false)
  | Input (EventKey key r) =>
      if Key_eqb key KeyEscape || Key_eqb key KeyCtrlC
         || isRune r "q" || isRune r "Q"
      then (st, [], false)
      else if isRune r "r" || isRune r "R" then
        let st' :=
          {| currentStats := currentStats st; prevStats := None;
             rates := Some ∅; lastErr := lastErr st |} in
        (st', [draw st'], true)
      else (st, [], true)
  | Input EventResize => (st, [Sync; draw st], true)
  | Input EventOther => (st, [], true)
  end.

(** The loop over the occurrences the program meets, in order. *)
Fixpoint loop (st : loopState) (os : list occurrence)
    : loopState * list effect :=
  match os with
  | [] => (st, [])
  | o :: os' =>
      let '(st', effs, continue) := step st o in
      if continue then
        let '(st'', effs') := loop st' os' in (st'', effs ++ effs')
      else (st', effs)
  end.

(** [main] from the first [drawScreen] on. *)
Definition main (os : list occurrence) : loopState * list effect :=
  let '(st, effs) := loop initialState os in
  (st, draw initialState :: effs).
End Sampler.

(** [rateValue]: a nil map reads as zero, as does a missing key. *)
Definition rateValue (rates : option (gmap string float)) (key : string)
    : float :=
  match rates with
  | None => 0%float
  | Some rates => default 0%float (rates !! key)
  end.

Definition boolToWord (v : bool) : string := if v then "yes" else "no".

(** ** Package fmt: the verbs the formatters use *)

Module fmt.
Definition digits (n : Z) : string :=
  NilZero.string_of_uint (N.to_uint (Z.to_N n)).

Fixpoint zeros (n : nat) : string :=
  match n with
  | O => EmptyString
  | S k => String "0" (zeros k)
  end.

(** Zero padding on the left up to [width] bytes. *)
Definition padZero (width : nat) (s : string) : string :=
  zeros (width - String.length s) +:+ s.

(** [%d]. *)
Definition verb_d (n : Z) : string :=
  if n <? 0 then "-" +:+ digits (- n) else digits n.

(** [%02d]: width 2, padded with zeros; the sign counts in the width. *)
Definition verb_02d (n : Z) : string :=
  if n <? 0 then "-" +:+ padZero 1 (digits (- n)) else padZero 2 (digits n).

(** [m * 2^e] rounded to the nearest integer, ties to even. *)
Definition roundHalfEven (m e : Z) : Z :=
  if 0 <=? e then m * 2 ^ e
  else
    let d := 2 ^ (- e) in
    let q := m / d in
    let r := m mod d in
    if (d <? 2 * r) || ((d =? 2 * r) && Z.odd q) then q + 1 else q.

(** The decimal notation of [n / 10^p] with [p] digits after the point. *)
Definition fixed (p : nat) (n : Z) : string :=
  match p with
  | O => digits n
  | S _ =>
      digits (n / 10 ^ Z.of_nat p) +:+ "."
      +:+ padZero p (digits (n mod 10 ^ Z.of_nat p))
  end.

(** [%.pf]: the exact value rounded to [p] decimals, ties to even. *)
Definition verb_f (p : nat) (x : float) : string :=
  match Prim2SF x with
  | S754_nan => "NaN"
  | S754_infinity s => if s then "-Inf" else "+Inf"
  | S754_zero s => (if s then "-" else "") +:+ fixed p 0
  | S754_finite s m e =>
      (if s then "-" else "")
      +:+ fixed p (roundHalfEven (Z.pos m * 10 ^ Z.of_nat p) e)
  end.
End fmt.

(** ** Formatting helpers *)

Definition units : list string := ["B"; "KB"; "MB"; "GB"; "TB"; "PB"].

(** [for b >= 1024 && idx < len(units)-1 { b /= 1024; idx++ }], by
    recursion on [len(units) - 1 - idx]. *)
Fixpoint scaleBytes (remaining : nat) (b : float) (idx : nat)
    : float * nat :=
  match remaining with
  | O => (b, idx)
  | S k =>
      if (1024 <=? b)%float then scaleBytes k (b / 1024)%float (S idx)
      else (b, idx)
  end.

Definition formatBytes (b : float) : string :=
  let b := if (b <? 0)%float then 0%float else b in
  let '(b, idx) := scaleBytes (length units - 1) b 0 in
  if (idx =? 0)%nat then fmt.verb_f 0 b +:+ " " +:+ nth idx units ""
  else fmt.verb_f 1 b +:+ " " +:+ nth idx units "".

Definition formatBytesRate (bps : float) : string := formatBytes bps +:+ "/s".

Definition formatUptime (seconds : float) : string :=
  if (seconds <=? 0)%float then "0s"
  else
    let duration :=
      int64_of_float64 (seconds * float64_of_int time.Second)%float in
    let days := Int64.quot duration (24 * time.Hour) in
    let duration :=
      Int64.sub duration (Int64.mul (Int64.mul days 24) time.Hour) in
    let hours := Int64.quot duration time.Hour in
    let duration := Int64.sub duration (Int64.mul hours time.Hour) in
    let minutes := Int64.quot duration time.Minute in
    let duration := Int64.sub duration (Int64.mul minutes time.Minute) in
    let seconds := math.Round (time.Seconds duration) in
    if 0 <? days then
      fmt.verb_d days +:+ "d " +:+ fmt.verb_02d hours +:+ "h "
      +:+ fmt.verb_02d minutes +:+ "m "
      +:+ fmt.verb_02d (int64_of_float64 seconds) +:+ "s"
    else
      fmt.verb_02d hours +:+ "h " +:+ fmt.verb_02d minutes +:+ "m "
      +:+ fmt.verb_02d (int64_of_float64 seconds) +:+ "s".

(** ** Text drawing *)

(** [tcell.Style], passed through unchanged. *)
Definition Style := Z.

(** A call [screen.SetContent(x, y, r, nil, style)]. *)
Record cellWrite := SetContent {
  cellX : Z;
  cellY : Z;
  cellRune : rune;
  cellStyle : Style
}.

(** The [range text] loop of [drawText] over the remaining runes. *)
Fixpoint drawRunes (width x y : Z) (style : Style)
    (items : list (Z * rune)) : list cellWrite :=
  match items with
  | [] => []
  | (i, r) :: rest =>
      let pos := Int64.add x i in
      if width <=? pos then []
      else SetContent pos y r style :: drawRunes width x y style rest
  end.

(** [drawText] on a screen whose [Size()] is [(width, height)]: the cells
    it sets, in order. *)
Definition drawText (size : Z * Z) (x y : Z) (style : Style)
    (text : string) : list cellWrite :=
  if y <? 0 then []
  else
    let '(width, height) := size in
    if height <=? y then []
    else drawRunes width x y style (rangeString text).

(** ** Definitions used to state the properties *)

(** A float of sign [s] that is not a zero and not NaN. *)
Inductive signed_nonzero (s : bool) : spec_float -> Prop :=
  | sn_finite m e : signed_nonzero s (S754_finite s m e)
  | sn_infinity : signed_nonzero s (S754_infinity s).

(** The floats that are not below zero: NaN, the zeros, and the positive
    finite and infinite values. *)
Inductive not_negative : spec_float -> Prop :=
  | nn_nan : not_negative S754_nan
  | nn_zero s : not_negative (S754_zero s)
  | nn_infinity : not_negative (S754_infinity false)
  | nn_finite m e : not_negative (S754_finite false m e).

(** The rate stored for a key whose values are [c] now and [p] before. *)
Definition rateOf (c p elapsed : float) : float :=
  ((if (c <? p)%float then 0 else c - p) / elapsed)%float.

(** The two snapshots of the repository's rate test: two seconds apart,
    one counter growing and one dropping. *)
Definition prevSample : statsSnapshot :=
  {| Timestamp := 0;
     Values := {[ "cmd_get" := 100%float; "evictions" := 6%float ]};
     Raw := ∅ |}.

Definition currSample : statsSnapshot :=
  {| Timestamp := 2 * time.Second;
     Values := {[ "cmd_get" := 140%float; "evictions" := 4%float ]};
     Raw := ∅ |}.

(** A snapshot whose only numeric value is NaN; its raw map holds the key
    as well. *)
Definition nanSample : statsSnapshot :=
  {| Timestamp := 2 * time.Second;
     Values := {[ "cmd_get" := nan ]};
     Raw := {[ "cmd_get" := "NaN" ]} |}.

(** The acceptance test of the sampler, in the specification's words: a
    line is accepted when it has at least three white-space separated
    tokens, the first being the marker; its key is the second token and its
    value the remaining tokens joined by single spaces. *)
Definition accepted (line : string) : option (string * string) :=
  match strings.Fields line with
  | marker :: key :: v :: rest =>
      if String.eqb marker "STAT"
      then Some (key, strings.Join (v :: rest) " ") else None
  | _ => None
  end.

(** The lines the sampler reads before the terminator. *)
Fixpoint beforeEnd (lines : list string) : list string :=
  match lines with
  | [] => []
  | line :: rest =>
      if String.eqb line "END" then [] else line :: beforeEnd rest
  end.

(** What the lines read so far hold for [key] after one more line: the
    value of that line when it is accepted and carries [key], and what was
    found before otherwise. *)
Definition laterValue (key : string) (found : option string) (line : string)
    : option string :=
  match accepted line with
  | Some (k, v) => if String.eqb k key then Some v else found
  | None => found
  end.

(** The value of the last accepted line that carries [key], if there is
    one. *)
Definition lastValue (key : string) (lines : list string) : option string :=
  foldl (laterValue key) None lines.

(** The same for numbers: an accepted line that carries [key] counts only
    when its value parses. *)
Definition laterNumber (ParseFloat : string -> option float) (key : string)
    (found : option float) (line : string) : option float :=
  match accepted line with
  | Some (k, v) =>
      if String.eqb k key
      then match ParseFloat v with Some number => Some number | None => found end
      else found
  | None => found
  end.

(** The number of the last accepted line that carries [key] and whose
    value parses, if there is one. *)
Definition lastNumber (ParseFloat : string -> option float) (key : string)
    (lines : list string) : option float :=
  foldl (laterNumber ParseFloat key) None lines.

(** The exchange of the repository's sampler test: a numeric line, a
    version line, a line whose value is not a number, the terminator. *)
Definition testExchange : exchange :=
  {| dialErr := None; deadlineErr := None; writeErr := None;
     scanLines := ["STAT cmd_get 42"; "STAT version 1.6.9";
                   "STAT evictions not_a_number"; "END"];
     scanErr := None;
     now := 1 |}.

(** An exchange in which a key is sent three times, the last time with a
    value that is a number, and in which a short line and a line with
    another marker appear. *)
Definition repeatedExchange : exchange :=
  {| dialErr := None; deadlineErr := None; writeErr := None;
     scanLines := ["STAT threads 4"; "STAT threads many"; "threads 9";
                   "STAT threads 8"; "INFO threads 16 32";
                   "STAT version 1.6.9 beta"; "END"; "STAT threads 1"];
     scanErr := None;
     now := 1 |}.

(** An exchange in which a key is first sent with a number and then with a
    value that is none, before a terminator that is followed by more. *)
Definition staleExchange : exchange :=
  {| dialErr := None; deadlineErr := None; writeErr := None;
     scanLines := ["STAT threads 4"; "STAT threads many"; "END";
                   "STAT threads 9"];
     scanErr := None;
     now := 7 |}.

(** A state of the loop after a successful sample followed by a failed
    one: a snapshot, a baseline, a rate table and an error are all held. *)
Definition busyState : loopState :=
  {| currentStats := Some currSample;
     prevStats := Some currSample;
     rates := Some {[ "cmd_get" := 20%float ]};
     lastErr := Some "i/o timeout" |}.

(** An exchange that fails at the connection. *)
Definition refusedExchange : exchange :=
  {| dialErr := Some "connection refused"; deadlineErr := None;
     writeErr := None; scanLines := []; scanErr := None; now := 5 |}.

(** The byte count after [idx] divisions by 1024. *)
Fixpoint scaled (b : float) (idx : nat) : float :=
  match idx with
  | O => b
  | S k => scaled (b / 1024)%float k
  end.

(** ** Definitions used to state further properties *)

(** The occurrences on which the loop stops: the closing of the input
    channel, and a key event that is Escape, Ctrl-C, or carries the rune q
    or Q. *)
Definition quits (o : occurrence) : bool :=
  match o with
  | InputClosed => true
  | Input (EventKey key r) =>
      Key_eqb key KeyEscape || Key_eqb key KeyCtrlC
      || isRune r "q" || isRune r "Q"
  | _ => false
  end.

(** What the loop keeps true of its variables: the baseline, when there is
    one, is the snapshot on display; every key of the rate table is a
    numeric key of that snapshot; and no rate is below zero. *)
Definition loopInvariant (st : loopState) : Prop :=
  (prevStats st = None \/ prevStats st = currentStats st)
  /\ (forall table key, rates st = Some table -> is_Some (table !! key) ->
        exists stats, currentStats st = Some stats
                      /\ is_Some (Values stats !! key))
  /\ (forall table key r, rates st = Some table -> table !! key = Some r ->
        (r <? 0)%float = false).

(** A key event carrying the rune r: the reset input. *)
Definition resetKey : occurrence := Input (EventKey KeyOther (byteVal "r")).

(** An exchange whose lines stop, with a read error, before any
    terminator. *)
Definition brokenExchange : exchange :=
  {| dialErr := None; deadlineErr := None; writeErr := None;
     scanLines := ["STAT threads 4"; "STAT curr_items"];
     scanErr := Some "i/o timeout";
     now := 7 |}.

(** The exchange [staleExchange] cut after its terminator. *)
Definition cutExchange : exchange :=
  {| dialErr := None; deadlineErr := None; writeErr := None;
     scanLines := ["STAT threads 4"; "STAT threads many"; "END"];
     scanErr := None;
     now := 7 |}.

(** ** Renderer *)

(** The calls [drawScreen] makes on the screen. *)
Inductive screenCall :=
  | Clear
  | Content (w : cellWrite)
  | Show.

(** [stats.Values[key]] and [stats.Raw[key]]: a missing key reads as the
    zero value. *)
Definition valueOf (stats : statsSnapshot) (key : string) : float :=
  default 0%float (Values stats !! key).

Definition rawOf (stats : statsSnapshot) (key : string) : string :=
  default "" (Raw stats !! key).

Section Renderer.
(** What the libraries print and provide: [interval] under the verb [%s]
    ([time.Duration.String]), [Timestamp.Format("2006-01-02 15:04:05")],
    [tcell.StyleDefault] and [Style.Bold]. *)
Variable durationString : time.Duration -> string.
Variable formatTimestamp : time.Time -> string.
Variable StyleDefault : Style.
Variable Bold : Style -> bool -> Style.

(** The lines of the metric sections, in order, each with the number of
    rows it advances [line] by. *)
Definition statsLines (stats : statsSnapshot)
    (rates : option (gmap string float)) : list (string * Z) :=
  let getHits := valueOf stats "get_hits" in
  let getMisses := valueOf stats "get_misses" in
  let totalGets := (getHits + getMisses)%float in
  let hitRatio :=
    if (0 <? totalGets)%float then (getHits / totalGets * 100)%float
    else 0%float in
  let bytesUsed := valueOf stats "bytes" in
  let maxBytes := valueOf stats "limit_maxbytes" in
  let memoryPercent :=
    if (0 <? maxBytes)%float then (bytesUsed / maxBytes * 100)%float
    else 0%float in
  let cmdGetRate := rateValue rates "cmd_get" in
  let cmdSetRate := rateValue rates "cmd_set" in
  let cmdDeleteRate := rateValue rates "cmd_delete" in
  let incrRate :=
    (rateValue rates "incr_hits" + rateValue rates "incr_misses")%float in
  let decrRate :=
    (rateValue rates "decr_hits" + rateValue rates "decr_misses")%float in
  let touchRate :=
    (rateValue rates "touch_hits" + rateValue rates "touch_misses")%float in
  [ ("Time: " +:+ formatTimestamp (Timestamp stats)
     +:+ "    Uptime: " +:+ formatUptime (valueOf stats "uptime")
     +:+ "    Version: " +:+ rawOf stats "version", 1);
    ("Requests: hits " +:+ fmt.verb_f 0 getHits
     +:+ "  misses " +:+ fmt.verb_f 0 getMisses
     +:+ "  hit ratio " +:+ fmt.verb_f 2 hitRatio
     +:+ "%  evictions " +:+ fmt.verb_f 0 (valueOf stats "evictions")
     +:+ "  reclaimed " +:+ fmt.verb_f 0 (valueOf stats "reclaimed"), 2);
    ("Memory: " +:+ formatBytes bytesUsed +:+ " / " +:+ formatBytes maxBytes
     +:+ " (" +:+ fmt.verb_f 1 memoryPercent +:+ "%)   Free: "
     +:+ formatBytes (maxBytes - bytesUsed)%float, 1);
    ("Connections: current " +:+ fmt.verb_f 0 (valueOf stats "curr_connections")
     +:+ "  total " +:+ fmt.verb_f 0 (valueOf stats "total_connections")
     +:+ "  reserved " +:+ fmt.verb_f 0 (valueOf stats "reserved_fds")
     +:+ "  waiting " +:+ fmt.verb_f 0 (valueOf stats "conn_yields")
     +:+ "  max simultaneous " +:+ fmt.verb_f 0 (valueOf stats "threads"), 1);
    ("Commands/s: get " +:+ fmt.verb_f 2 cmdGetRate
     +:+ "  set " +:+ fmt.verb_f 2 cmdSetRate
     +:+ "  delete " +:+ fmt.verb_f 2 cmdDeleteRate
     +:+ "  incr " +:+ fmt.verb_f 2 incrRate
     +:+ "  decr " +:+ fmt.verb_f 2 decrRate
     +:+ "  touch " +:+ fmt.verb_f 2 touchRate, 1);
    ("Bandwidth/s: read " +:+ formatBytesRate (rateValue rates "bytes_read")
     +:+ "  write " +:+ formatBytesRate (rateValue rates "bytes_written"), 1);
    ("Items: current " +:+ fmt.verb_f 0 (valueOf stats "curr_items")
     +:+ "  total " +:+ fmt.verb_f 0 (valueOf stats "total_items")
     +:+ "  expired " +:+ fmt.verb_f 0 (valueOf stats "expired_unfetched"), 1);
    ("Slabs: " +:+ fmt.verb_f 0 (valueOf stats "slab_global_page_pool")
     +:+ "  Threads: " +:+ fmt.verb_f 0 (valueOf stats "threads")
     +:+ "  Accepting connections: "
     +:+ boolToWord (valueOf stats "accepting_conns" =? 1)%float, 1) ].

(** Successive [drawText(screen, 0, line, baseStyle, text)] calls, [line]
    advancing after each. *)
Fixpoint drawLines (size : Z * Z) (line : Z) (lines : list (string * Z))
    : list cellWrite :=
  match lines with
  | [] => []
  | (text, advance) :: rest =>
      drawText size 0 line StyleDefault text
      ++ drawLines size (Int64.add line advance) rest
  end.

(** [drawScreen] on a screen whose [Size()] is [size]: its calls on the
    screen, in order. *)
Definition drawScreen (size : Z * Z) (addr : string)
    (interval : time.Duration) (stats : option statsSnapshot)
    (rates : option (gmap string float)) (err : option error)
    : list screenCall :=
  let '(width, height) := size in
  if (height <=? 0) || (width <=? 0) then [Clear; Show]
  else
    let baseStyle := StyleDefault in
    let highlightStyle := Bold baseStyle true in
    let title :=
      drawText size 0 0 highlightStyle
        ("mymemcache-top  " +:+ addr +:+ "  (refresh "
         +:+ durationString interval +:+ ")") in
    let line := 2 in
    let '(errorLine, line) :=
      match err with
      | Some e =>
          (drawText size 0 line baseStyle ("Error: " +:+ e),
           Int64.add line 2)
      | None => ([], line)
      end in
    let body :=
      match stats with
      | Some stats => drawLines size line (statsLines stats rates)
      | None =>
          match err with
          | None =>
              drawText size 0 line baseStyle "Waiting for initial stats..."
          | Some _ => []
          end
      end in
    let controls :=
      if 2 <? height then
        drawText size 0 (Int64.sub height 1) highlightStyle
          "Controls: q to quit | r to reset rate baseline"
      else [] in
    Clear :: (Content <$> title ++ errorLine ++ body ++ controls) ++ [Show].
End Renderer.

(** The cells among the calls of [drawScreen]. *)
Definition cellsOf (calls : list screenCall) : list cellWrite :=
  omap (fun c => match c with Content w => Some w | _ => None end) calls.

(** A cell within a screen of the given size. *)
Definition onScreen (size : Z * Z) (w : cellWrite) : Prop :=
  0 <= cellX w < size.1 /\ 0 <= cellY w < size.2.

(** The snapshot and the rates of the repository's rendering test. *)
Definition renderSample : statsSnapshot :=
  {| Timestamp := 0;
     Values :=
       list_to_map
         [("uptime", 3661%float); ("get_hits", 80%float);
          ("get_misses", 20%float); ("evictions", 2%float);
          ("reclaimed", 1%float); ("bytes", 2048%float);
          ("limit_maxbytes", 8192%float); ("curr_connections", 5%float);
          ("total_connections", 50%float); ("reserved_fds", 1%float);
          ("conn_yields", 2%float); ("threads", 4%float);
          ("curr_items", 100%float); ("total_items", 200%float);
          ("expired_unfetched", 3%float);
          ("slab_global_page_pool", 4%float);
          ("accepting_conns", 1%float)];
     Raw := {[ "version" := "1.6.0" ]} |}.

Definition renderRates : gmap string float :=
  list_to_map
    [("cmd_get", 4.5%float); ("cmd_set", 2%float); ("cmd_delete", 1%float);
     ("incr_hits", 0.5%float); ("bytes_read", 1024%float);
     ("bytes_written", 2048%float)].

(** A text all of whose bytes are ASCII. *)
Fixpoint isASCII (s : string) : bool :=
  match s with
  | EmptyString => true
  | String c s' => (byteVal c <? 128) && isASCII s'
  end.

(** The given characters along row [y], one per column from [col] on. *)
Fixpoint cellsFrom (col y : Z) (style : Style) (chars : list ascii)
    : list cellWrite :=
  match chars with
  | [] => []
  | c :: rest =>
      SetContent col y (byteVal c) style :: cellsFrom (col + 1) y style rest
  end.

(** The help line of [drawScreen]. *)
Definition controlsText : string :=
  "Controls: q to quit | r to reset rate baseline".

(** ** The shape of keys *)

(** The white-space bytes of ASCII: tab, line feed, vertical tab, form
    feed, carriage return and space. *)
Definition isSpaceByte (c : ascii) : bool :=
  let b := byteVal c in ((9 <=? b) && (b <=? 13)) || (b =? 32).

Fixpoint hasSpaceByte (s : string) : bool :=
  match s with
  | EmptyString => false
  | String c s' => isSpaceByte c || hasSpaceByte s'
  end.

(** The next [skip] bytes of [s], as far as there are any, are not ASCII. *)
Fixpoint contBytes (skip : nat) (s : string) : Prop :=
  match skip, s with
  | S k, String c s' => 128 <= byteVal c /\ contBytes k s'
  | _, _ => True
  end.

(** A token: not empty, and without a white-space byte. *)
Definition token (w : string) : Prop :=
  w <> EmptyString /\ hasSpaceByte w = false.

(** * Properties *)

(** ** Binary64 arithmetic used by the rate engine *)

Section SpecFloatFacts.
Lemma digits2_pos_lower (p : positive) : 2 ^ (Z.pos (digits2_pos p) - 1) <= Z.pos p.
Proof.
  induction p as [p IH|p IH|]; simpl digits2_pos.
  - rewrite Pos2Z.inj_succ. replace (Z.succ (Z.pos (digits2_pos p)) - 1) with (Z.succ (Z.pos (digits2_pos p) - 1)) by lia.
    rewrite Z.pow_succ_r by lia. lia.
  - rewrite Pos2Z.inj_succ. replace (Z.succ (Z.pos (digits2_pos p)) - 1) with (Z.succ (Z.pos (digits2_pos p) - 1)) by lia.
    rewrite Z.pow_succ_r by lia. lia.
  - simpl. lia.
Qed.

Lemma digits2_pos_upper (p : positive) : Z.pos p < 2 ^ Z.pos (digits2_pos p).
Proof.
  induction p as [p IH|p IH|]; simpl digits2_pos.
  - rewrite Pos2Z.inj_succ, Z.pow_succ_r by lia. lia.
  - rewrite Pos2Z.inj_succ, Z.pow_succ_r by lia. lia.
  - simpl. lia.
Qed.

Lemma shr_1_lower (k : Z) (r : shr_record) : 2 * k <= shr_m r -> k <= shr_m (shr_1 r).
Proof.
  destruct r as [m b s]. simpl. destruct m as [|[p|p|]|[p|p|]]; simpl; lia.
Qed.

Lemma iter_shr_1_lower (n : positive) : forall (k : Z) (r : shr_record),
  0 <= k -> 2 ^ Z.pos n * k <= shr_m r -> k <= shr_m (SpecFloat.iter_pos shr_1 n r).
Proof.
  induction n as [n IH|n IH|]; intros k r Hk H; simpl SpecFloat.iter_pos.
  - apply IH; [lia|]. apply IH; [apply Z.mul_nonneg_nonneg; lia|]. apply shr_1_lower.
    assert (E : 2 ^ Z.pos n~1 = 2 * (2 ^ Z.pos n * 2 ^ Z.pos n)).
    { rewrite <- Z.pow_add_r, <- Z.pow_succ_r by lia. f_equal. lia. }
    rewrite E in H. lia.
  - apply IH; [lia|]. apply IH; [apply Z.mul_nonneg_nonneg; lia|].
    assert (E : 2 ^ Z.pos n~0 = 2 ^ Z.pos n * 2 ^ Z.pos n).
    { rewrite <- Z.pow_add_r by lia. f_equal. lia. }
    rewrite E in H. lia.
  - apply shr_1_lower. simpl in H. lia.
Qed.

(** Rounding a positive mantissa whose exponent is at least [emin] never
    reaches zero: the shift drops fewer bits than the mantissa has. *)
Lemma shr_fexp_pos (m : positive) (e : Z) (l : location) :
  emin <= e ->
  0 < shr_m (fst (shr_fexp prec emax (Z.pos m) e l)) /\ emin <= snd (shr_fexp prec emax (Z.pos m) e l).
Proof.
  intros He. unfold shr_fexp, shr, Zdigits2, fexp.
  pose proof (digits2_pos_lower m) as Hlo.
  set (d := Z.pos (digits2_pos m)) in *.
  assert (Hm : shr_m (shr_record_of_loc (Z.pos m) l) = Z.pos m) by (destruct l as [|[]]; reflexivity).
  destruct (Z.max (d + e - prec) emin - e) as [|n|n] eqn:Hn; simpl; rewrite ?Hm; try lia.
  split; [|lia].
  assert (Hnd : Z.pos n = d - prec) by lia.
  enough (1 <= shr_m (SpecFloat.iter_pos shr_1 n (shr_record_of_loc (Z.pos m) l))) by lia.
  apply iter_shr_1_lower; [lia|]. rewrite Hm, Z.mul_1_r.
  etransitivity; [|exact Hlo]. apply Z.pow_le_mono_r; [lia|]. rewrite Hnd. unfold prec. lia.
Qed.

Lemma round_nearest_even_pos (m : Z) (l : location) : 0 < m -> 0 < round_nearest_even m l.
Proof. intros H. destruct l as [|[]]; simpl; try lia. destruct (Z.even m); lia. Qed.


Lemma binary_round_aux_nonzero (s : bool) (m : positive) (e : Z) (l : location) :
  emin <= e -> signed_nonzero s (binary_round_aux prec emax s (Z.pos m) e l).
Proof.
  intros He. unfold binary_round_aux.
  destruct (shr_fexp_pos m e l He) as [H1 H2].
  destruct (shr_fexp prec emax (Z.pos m) e l) as [r1 e1]. simpl in H1, H2.
  pose proof (round_nearest_even_pos _ (loc_of_shr_record r1) H1) as H3.
  destruct (round_nearest_even (shr_m r1) (loc_of_shr_record r1)) as [|m2|m2]; try lia.
  destruct (shr_fexp_pos m2 e1 loc_Exact H2) as [H4 H5].
  destruct (shr_fexp prec emax (Z.pos m2) e1 loc_Exact) as [r2 e2]. simpl in H4, H5.
  destruct (shr_m r2); try lia.
  destruct (e2 <=? emax - prec); constructor.
Qed.

Lemma binary_round_nonzero (s : bool) (m : positive) (e : Z) :
  emin <= e -> signed_nonzero s (binary_round prec emax s m e).
Proof.
  intros He. unfold binary_round.
  destruct (shl_align m e (fexp prec emax (Z.pos (digits2_pos m) + e))) as [mz ez] eqn:Hal.
  apply binary_round_aux_nonzero.
  unfold shl_align in Hal.
  destruct (fexp prec emax (Z.pos (digits2_pos m) + e) - e) eqn:Hd; inversion Hal; subst; try lia.
  unfold fexp. lia.
Qed.

Lemma iter_xO_value (m d : positive) : Z.pos (Pos.iter xO m d) = Z.pos m * 2 ^ Z.pos d.
Proof.
  induction d as [|d IH] using Pos.peano_ind.
  - simpl. lia.
  - rewrite Pos.iter_succ, Pos2Z.inj_xO, IH, Pos2Z.inj_succ, Z.pow_succ_r by lia. lia.
Qed.

Lemma shl_align_value (m : positive) (e ez : Z) :
  ez <= e -> Z.pos (fst (shl_align m e ez)) = Z.pos m * 2 ^ (e - ez).
Proof.
  intros H. unfold shl_align. destruct (ez - e) as [|d|d] eqn:Hd; simpl; try lia.
  - replace (e - ez) with 0 by lia. lia.
  - rewrite iter_xO_value. f_equal. f_equal. lia.
Qed.

Lemma bounded_inv (m : positive) (e : Z) :
  bounded prec emax m e = true ->
  emin <= e /\ Z.pos m < 2 ^ prec /\ (emin < e -> 2 ^ (prec - 1) <= Z.pos m).
Proof.
  unfold bounded, canonical_mantissa, fexp. intros H.
  apply andb_prop in H as [H _]. apply Z.eqb_eq in H.
  pose proof (digits2_pos_lower m) as Hlo. pose proof (digits2_pos_upper m) as Hup.
  set (d := Z.pos (digits2_pos m)) in *.
  assert (Hd : d <= prec) by lia.
  split; [lia|]. split.
  - eapply Z.lt_le_trans; [exact Hup|]. apply Z.pow_le_mono_r; lia.
  - intros He. replace (prec - 1) with (d - 1) by lia. exact Hlo.
Qed.

Lemma SFltb_aligned (sx sy : bool) (mx my : positive) (ex ey : Z) :
  bounded prec emax mx ex = true -> bounded prec emax my ey = true ->
  SFltb (S754_finite sx mx ex) (S754_finite sy my ey)
  = (cond_Zopp sx (Z.pos (fst (shl_align mx ex (Z.min ex ey))))
     - cond_Zopp sy (Z.pos (fst (shl_align my ey (Z.min ex ey)))) <? 0).
Proof.
  intros Hx Hy.
  apply bounded_inv in Hx as (Hex & Hxu & Hxl), Hy as (Hey & Hyu & Hyl).
  rewrite !shl_align_value by lia.
  unfold SFltb, SFcompare.
  assert (P2 : forall k, 0 < k -> 2 * 2 ^ (prec - 1) <= 2 ^ prec * 1 /\ 2 <= 2 ^ k).
  { intros k Hk. split; [reflexivity|]. change 2 with (2 ^ 1) at 1. apply Z.pow_le_mono_r; lia. }
  destruct (Z.compare_spec ex ey) as [E|L|G].
  - subst ey. rewrite Z.min_id, Z.sub_diag. change (2 ^ 0) with 1. rewrite !Z.mul_1_r.
    rewrite Pos.compare_cont_spec. simpl Pos.switch_Eq. 
    destruct sx, sy; simpl cond_Zopp; symmetry;
      destruct (Pos.compare_spec mx my); simpl; try (apply Z.ltb_lt; lia); apply Z.ltb_ge; lia.
  - rewrite Z.min_l, Z.sub_diag by lia. change (2 ^ 0) with 1. rewrite Z.mul_1_r.
    destruct (P2 (ey - ex)) as [_ Hp]; [lia|]. specialize (Hyl ltac:(lia)).
    assert (Z.pos mx < Z.pos my * 2 ^ (ey - ex)) by (unfold prec in *; nia).
    destruct sx, sy; simpl cond_Zopp; symmetry; try (apply Z.ltb_lt; lia); apply Z.ltb_ge; lia.
  - rewrite Z.min_r, Z.sub_diag by lia. change (2 ^ 0) with 1. rewrite Z.mul_1_r.
    destruct (P2 (ex - ey)) as [_ Hp]; [lia|]. specialize (Hxl ltac:(lia)).
    assert (Z.pos my < Z.pos mx * 2 ^ (ex - ey)) by (unfold prec in *; nia).
    destruct sx, sy; simpl cond_Zopp; symmetry; try (apply Z.ltb_lt; lia); apply Z.ltb_ge; lia.
Qed.

Lemma binary_normalize_ltb_zero (m e : Z) :
  emin <= e -> SFltb (binary_normalize prec emax m e false) (S754_zero false) = (m <? 0).
Proof.
  intros He. destruct m as [|p|p]; simpl binary_normalize.
  - reflexivity.
  - destruct (binary_round_nonzero false p e He); reflexivity.
  - destruct (binary_round_nonzero true p e He); reflexivity.
Qed.

Lemma SFsub_ltb_zero (x y : spec_float) :
  valid_binary x = true -> valid_binary y = true ->
  SFltb (SF64sub x y) (S754_zero false) = SFltb x y.
Proof.
  intros Hx Hy. destruct x as [sx|sx| |sx mx ex], y as [sy|sy| |sy my ey];
    try reflexivity; try (destruct sx; reflexivity); try (destruct sy; reflexivity);
    try (destruct sx, sy; reflexivity).
  simpl in Hx, Hy. rewrite (SFltb_aligned _ _ _ _ _ _ Hx Hy).
  unfold SF64sub, SFsub. apply binary_normalize_ltb_zero.
  apply bounded_inv in Hx as (Hex & _), Hy as (Hey & _). lia.
Qed.

Lemma sub_ltb_zero (c p : float) : ((c - p) <? 0)%float = (c <? p)%float.
Proof.
  rewrite !ltb_spec, sub_spec. change (Prim2SF 0) with (S754_zero false).
  apply SFsub_ltb_zero; apply Prim2SF_valid.
Qed.


Lemma SFltb_zero_false (x : spec_float) :
  SFltb x (S754_zero false) = false -> not_negative x.
Proof. destruct x as [s|[]| |[] m e]; simpl; intros H; try discriminate; constructor. Qed.

Lemma not_negative_leb (x : spec_float) :
  not_negative x -> SFleb (S754_zero false) x = true \/ x = S754_nan.
Proof. destruct 1; simpl; auto. Qed.

Lemma binary_round_aux_sign (s : bool) (m e : Z) (l : location) :
  match binary_round_aux prec emax s m e l with
  | S754_zero s' | S754_infinity s' | S754_finite s' _ _ => s' = s
  | S754_nan => True
  end.
Proof.
  unfold binary_round_aux.
  destruct (shr_fexp prec emax m e l) as [r1 e1].
  destruct (shr_fexp prec emax _ e1 loc_Exact) as [r2 e2].
  destruct (shr_m r2); trivial. destruct (e2 <=? emax - prec); trivial.
Qed.

Lemma SFdiv_not_negative (d e : spec_float) :
  not_negative d -> SFleb e (S754_zero false) = false ->
  not_negative (SF64div d e).
Proof.
  intros Hd He.
  destruct e as [se|[]| |[] me ee]; simpl in He; try discriminate;
    destruct Hd as [|sd| |md ed]; try constructor.
  unfold SF64div, SFdiv.
  destruct (SFdiv_core_binary prec emax (Z.pos md) ed (Z.pos me) ee) as [[mz ez] lz].
  pose proof (binary_round_aux_sign (xorb false false) mz ez lz) as Hs.
  destruct (binary_round_aux prec emax (xorb false false) mz ez lz);
    simpl in Hs; subst; constructor.
Qed.
End SpecFloatFacts.


Section RateEngine.
Implicit Types (curr prev : statsSnapshot) (key : string).

Lemma rateStep_rateOf (pv : gmap string float) elapsed key c result :
  rateStep pv elapsed key c result
  = match pv !! key with
    | Some p => <[key := rateOf c p elapsed]> result
    | None => result
    end.
Proof.
  unfold rateStep, rateOf. destruct (pv !! key) as [p|]; [|reflexivity].
  rewrite sub_ltb_zero. reflexivity.
Qed.

(** The table built by the loop, read key by key. *)
Lemma rates_fold_lookup (cv pv : gmap string float) elapsed key :
  map_fold (rateStep pv elapsed) ∅ cv !! key
  = match cv !! key, pv !! key with
    | Some c, Some p => Some (rateOf c p elapsed)
    | _, _ => None
    end.
Proof.
  apply (map_fold_weak_ind (λ r m, r !! key
    = match m !! key, pv !! key with
      | Some c, Some p => Some (rateOf c p elapsed)
      | _, _ => None
      end)).
  - rewrite !lookup_empty. reflexivity.
  - intros i x m r Hi IH. rewrite rateStep_rateOf.
    destruct (decide (i = key)) as [->|Hne].
    + rewrite lookup_insert_eq. rewrite Hi in IH.
      destruct (pv !! key); [apply lookup_insert_eq|exact IH].
    + rewrite (lookup_insert_ne m) by exact Hne.
      destruct (pv !! i); [rewrite lookup_insert_ne by exact Hne|]; exact IH.
Qed.

Lemma calculateRates_lookup curr prev key :
  (elapsedSeconds curr prev <=? 0)%float = false ->
  calculateRates (Some curr) (Some prev) !! key
  = match Values curr !! key, Values prev !! key with
    | Some c, Some p => Some (rateOf c p (elapsedSeconds curr prev))
    | _, _ => None
    end.
Proof. intros He. unfold calculateRates. rewrite He. apply rates_fold_lookup. Qed.

Lemma rateOf_not_negative (c p elapsed : float) :
  (elapsed <=? 0)%float = false ->
  not_negative (Prim2SF (rateOf c p elapsed)).
Proof.
  intros He. unfold rateOf. rewrite div_spec. apply SFdiv_not_negative.
  - apply SFltb_zero_false. destruct (c <? p)%float eqn:E; [reflexivity|].
    change (S754_zero false) with (Prim2SF 0).
    rewrite <- ltb_spec, sub_ltb_zero. exact E.
  - rewrite leb_spec in He. exact He.
Qed.
End RateEngine.

(** ** The rate table (C1, C2) *)

Section RateTable.
Implicit Types (curr prev : statsSnapshot) (key : string).

Lemma calculateRates_absent_curr (op : option statsSnapshot) :
  calculateRates None op = ∅.
Proof. destruct op; reflexivity. Qed.

Lemma calculateRates_absent_prev (oc : option statsSnapshot) :
  calculateRates oc None = ∅.
Proof. destruct oc; reflexivity. Qed.

Lemma calculateRates_no_interval curr prev :
  (elapsedSeconds curr prev <=? 0)%float = true ->
  calculateRates (Some curr) (Some prev) = ∅.
Proof. intros He. unfold calculateRates. rewrite He. reflexivity. Qed.

(** C1.  The rate engine returns the empty table when either snapshot is
    absent and when the elapsed seconds are at most zero; otherwise the
    rate of a key of both numeric maps is the difference of its two values
    over the elapsed seconds, the difference being replaced by zero when
    the current value is below the previous one. *)
Theorem calculateRates_spec :
  (forall op, calculateRates None op = ∅)
  /\ (forall oc, calculateRates oc None = ∅)
  /\ (forall curr prev,
        (elapsedSeconds curr prev <=? 0)%float = true ->
        calculateRates (Some curr) (Some prev) = ∅)
  /\ (forall curr prev key c p,
        (elapsedSeconds curr prev <=? 0)%float = false ->
        Values curr !! key = Some c ->
        Values prev !! key = Some p ->
        calculateRates (Some curr) (Some prev) !! key
        = Some ((if (c <? p)%float then 0 else c - p)
                / elapsedSeconds curr prev)%float).
Proof.
  split; [exact calculateRates_absent_curr|].
  split; [exact calculateRates_absent_prev|].
  split; [exact calculateRates_no_interval|].
  intros curr prev key c p He Hc Hp.
  rewrite calculateRates_lookup, Hc, Hp by exact He. reflexivity.
Qed.

(** C2, as amended.  A key has an entry in the table exactly when both
    snapshots are present, the elapsed seconds are above zero and the key
    is in both numeric maps (the raw maps play no part); and no stored
    value is below zero: each is at least zero, or NaN. *)
Theorem calculateRates_entries (oc op : option statsSnapshot) key :
  (is_Some (calculateRates oc op !! key)
   <-> exists curr prev,
         oc = Some curr /\ op = Some prev
         /\ (elapsedSeconds curr prev <=? 0)%float = false
         /\ is_Some (Values curr !! key) /\ is_Some (Values prev !! key))
  /\ (forall r, calculateRates oc op !! key = Some r ->
        (r <? 0)%float = false
        /\ ((0 <=? r)%float = true \/ is_nan r = true)).
Proof.
  pose proof calculateRates_absent_curr as Hn1.
  pose proof calculateRates_absent_prev as Hn2.
  pose proof calculateRates_no_interval as Hle.
  destruct oc as [curr|]; [destruct op as [prev|]|].
  - destruct (elapsedSeconds curr prev <=? 0)%float eqn:He.
    + rewrite (Hle _ _ He), lookup_empty. split.
      * split; [intros [? ?]; discriminate|].
        intros (c & p & [= <-] & [= <-] & He' & _). congruence.
      * discriminate.
    + rewrite (calculateRates_lookup _ _ _ He). split.
      * split.
        -- intros H. exists curr, prev. repeat split; trivial;
             destruct (Values curr !! key), (Values prev !! key);
             try (eexists; reflexivity); destruct H; discriminate.
        -- intros (c & p & [= <-] & [= <-] & _ & [x Hx] & [y Hy]).
           rewrite Hx, Hy. eexists; reflexivity.
      * intros r Hr.
        destruct (Values curr !! key) as [c|]; [|discriminate].
        destruct (Values prev !! key) as [p|]; [|discriminate].
        injection Hr as <-.
        pose proof (rateOf_not_negative c p _ He) as Hnn.
        rewrite FloatAxioms.ltb_spec, FloatAxioms.leb_spec. unfold is_nan. rewrite FloatAxioms.eqb_spec.
        change (Prim2SF 0) with (S754_zero false).
        destruct Hnn as [|[]| |]; simpl; auto.
        all: rewrite ?Z.compare_refl, ?Pos.compare_cont_refl; auto.
  - rewrite Hn2, lookup_empty. split; [|discriminate].
    split; [intros [? ?]; discriminate|]. intros (c & p & _ & [=] & _).
  - rewrite Hn1, lookup_empty. split; [|discriminate].
    split; [intros [? ?]; discriminate|]. intros (c & p & [=] & _).
Qed.
End RateTable.

(** C1 at the repository's test: a counter that dropped from 6 to 4 over
    two seconds has rate 0, one that grew from 100 to 140 has rate 20. *)
Lemma calculateRates_spec_witness :
  (elapsedSeconds currSample prevSample <=? 0)%float = false
  /\ calculateRates (Some currSample) (Some prevSample) !! "evictions"
     = Some 0%float
  /\ calculateRates (Some currSample) (Some prevSample) !! "cmd_get"
     = Some 20%float
  /\ calculateRates (Some currSample) (Some currSample) = ∅.
Proof.
  destruct calculateRates_spec as (_ & _ & Hle & Hrate).
  split; [reflexivity|]. split; [|split].
  - exact (Hrate currSample prevSample "evictions" 4%float 6%float
             eq_refl eq_refl eq_refl).
  - exact (Hrate currSample prevSample "cmd_get" 140%float 100%float
             eq_refl eq_refl eq_refl).
  - exact (Hle currSample currSample eq_refl).
Defined.

(** C2 as stated fails twice.  Two snapshots taken at the same instant
    share a numeric key, yet the table has no entry for it; and a NaN value
    yields a NaN rate, which is not at least zero. *)
Lemma calculateRates_entries_counterexample :
  (is_Some (Values currSample !! "cmd_get")
   /\ calculateRates (Some currSample) (Some currSample) !! "cmd_get" = None)
  /\ (calculateRates (Some nanSample) (Some prevSample) !! "cmd_get"
      = Some nan
      /\ (0 <=? nan)%float = false).
Proof.
  split; split; try reflexivity. eexists. reflexivity.
Qed.

(** C2 as amended, at the repository's test. *)
Lemma calculateRates_entries_witness :
  is_Some (calculateRates (Some currSample) (Some prevSample) !! "cmd_get")
  /\ ~ is_Some (calculateRates (Some currSample) (Some prevSample) !! "missing").
Proof.
  split.
  - apply (proj1 (calculateRates_entries _ _ _)).
    exists currSample, prevSample. repeat split; try (eexists; reflexivity).
  - intros H. apply (proj1 (calculateRates_entries _ _ _)) in H.
    destruct H as (c & p & [= <-] & [= <-] & _ & [x Hx] & _). discriminate.
Defined.

(** ** The sampler (C3, C4, C10) *)

Section SamplerFacts.
Variable ParseFloat : string -> option float.
Implicit Types (line key value : string) (lines : list string).
Implicit Types (values : gmap string float) (raw : gmap string string).

(** The loop body follows the acceptance test. *)
Lemma statLine_accepted line values raw :
  statLine ParseFloat line (values, raw)
  = match accepted line with
    | Some (key, value) =>
        (match ParseFloat value with
         | Some number => <[key := number]> values
         | None => values
         end, <[key := value]> raw)
    | None => (values, raw)
    end.
Proof.
  unfold statLine, accepted.
  destruct (strings.Fields line) as [|f0 [|f1 [|f2 fs]]]; try reflexivity.
  simpl. destruct (String.eqb f0 "STAT"); [|reflexivity]. simpl.
  destruct (ParseFloat _); reflexivity.
Qed.

Lemma accepted_tokens line :
  is_Some (accepted line)
  <-> (3 <= length (strings.Fields line))%nat
      /\ strings.Fields line !! 0%nat = Some "STAT".
Proof.
  unfold accepted.
  destruct (strings.Fields line) as [|f0 [|f1 [|f2 fs]]]; simpl.
  1-3: split; [intros [? [=]]|intros [? _]; lia].
  destruct (String.eqb_spec f0 "STAT") as [->|Hne].
  - split; [intros _; split; [lia|reflexivity]|intros _; eexists; reflexivity].
  - split; [intros [? [=]]|intros [_ [= ?]]; contradiction].
Qed.

(** The loop is the iteration of its body over the lines before the
    terminator. *)
Lemma scanLoop_foldl lines st :
  scanLoop ParseFloat lines st
  = (foldl (fun st line => statLine ParseFloat line st) st (beforeEnd lines),
     bool_decide ("END" ∈ lines)).
Proof.
  revert st. induction lines as [|line rest IH]; intros st;
    cbn [scanLoop beforeEnd].
  - rewrite bool_decide_eq_false_2 by apply not_elem_of_nil. reflexivity.
  - destruct (String.eqb_spec line "END") as [->|Hne].
    + rewrite bool_decide_eq_true_2 by constructor. reflexivity.
    + rewrite IH. cbn [foldl]. f_equal. apply bool_decide_ext.
      rewrite elem_of_cons. split; [auto|]. intros [E|E]; congruence.
Qed.

(** The numeric keys stay among the raw keys along the loop. *)
Lemma statLine_dom line values raw :
  dom values ⊆ dom raw ->
  dom (statLine ParseFloat line (values, raw)).1
  ⊆ dom (statLine ParseFloat line (values, raw)).2.
Proof.
  intros H. rewrite statLine_accepted.
  destruct (accepted line) as [[key value]|]; [|exact H].
  destruct (ParseFloat value); simpl; rewrite ?dom_insert_L; intros k Hk;
    apply elem_of_union; [apply elem_of_union in Hk as [Hk|Hk]|]; auto.
Qed.

Lemma foldl_statLine_dom lines st :
  dom st.1 ⊆ dom st.2 ->
  dom (foldl (fun st line => statLine ParseFloat line st) st lines).1
  ⊆ dom (foldl (fun st line => statLine ParseFloat line st) st lines).2.
Proof.
  revert st. induction lines as [|line rest IH]; intros [values raw] H; simpl.
  - exact H.
  - apply IH. apply statLine_dom. exact H.
Qed.

(** What a successful sample returns. *)
Lemma fetchStats_inr x s :
  fetchStats ParseFloat x = inr s ->
  s = {| Timestamp := now x;
         Values := (foldl (fun st line => statLine ParseFloat line st) (∅, ∅)
                      (beforeEnd (scanLines x))).1;
         Raw := (foldl (fun st line => statLine ParseFloat line st) (∅, ∅)
                   (beforeEnd (scanLines x))).2 |}.
Proof.
  unfold fetchStats.
  destruct (dialErr x); [discriminate|].
  destruct (deadlineErr x); [discriminate|].
  destruct (writeErr x); [discriminate|].
  rewrite scanLoop_foldl.
  destruct (foldl _ _ _) as [values raw].
  destruct (scanErr x); [discriminate|].
  intros [= <-]. reflexivity.
Qed.

(** A line that is not accepted, or whose key is another one, leaves the
    entries of [key] alone. *)
Lemma statLine_other_key line key values raw :
  (forall k v, accepted line = Some (k, v) -> k <> key) ->
  (statLine ParseFloat line (values, raw)).1 !! key = values !! key
  /\ (statLine ParseFloat line (values, raw)).2 !! key = raw !! key.
Proof.
  intros H. rewrite statLine_accepted.
  destruct (accepted line) as [[k v]|]; [|split; reflexivity].
  specialize (H k v eq_refl).
  destruct (ParseFloat v); simpl; rewrite ?lookup_insert_ne by exact H;
    split; reflexivity.
Qed.

Lemma foldl_statLine_other_key lines key st :
  Forall (fun line => forall k v, accepted line = Some (k, v) -> k <> key) lines ->
  (foldl (fun st line => statLine ParseFloat line st) st lines).1 !! key
  = st.1 !! key
  /\ (foldl (fun st line => statLine ParseFloat line st) st lines).2 !! key
     = st.2 !! key.
Proof.
  intros H. revert st.
  induction H as [|line rest Hl _ IH]; intros [values raw]; cbn [foldl].
  - split; reflexivity.
  - destruct (IH (statLine ParseFloat line (values, raw))) as [E1 E2].
    rewrite E1, E2. apply statLine_other_key. exact Hl.
Qed.

(** The entries of [key] along the loop: the raw map follows the last
    accepted line for [key], the numeric map the last one whose value
    parses. *)
Lemma foldl_statLine_last lines key :
  forall st : gmap string float * gmap string string,
  (foldl (fun st line => statLine ParseFloat line st) st lines).2 !! key
  = foldl (laterValue key) (st.2 !! key) lines
  /\ (foldl (fun st line => statLine ParseFloat line st) st lines).1 !! key
     = foldl (laterNumber ParseFloat key) (st.1 !! key) lines.
Proof.
  induction lines as [|line rest IH]; intros [values raw]; cbn [foldl].
  - split; reflexivity.
  - destruct (IH (statLine ParseFloat line (values, raw))) as [E2 E1].
    rewrite E1, E2, statLine_accepted. unfold laterValue, laterNumber.
    destruct (accepted line) as [[k v]|]; [|split; reflexivity].
    destruct (String.eqb_spec k key) as [->|Hne].
    + destruct (ParseFloat v); cbn [fst snd]; rewrite !lookup_insert_eq;
        split; reflexivity.
    + destruct (ParseFloat v); cbn [fst snd];
        rewrite ?lookup_insert_ne by exact Hne; split; reflexivity.
Qed.
End SamplerFacts.

Section SamplerClaims.
Variable ParseFloat : string -> option float.
Implicit Types (line key value : string) (lines : list string).
Implicit Types (values : gmap string float) (raw : gmap string string).

(** C3, as amended.  A line read before the terminator is accepted exactly
    when its white-space tokens are at least three and the first is the
    marker.  For an accepted line the key is the second token and the value
    the remaining tokens joined by single spaces; the value is stored in
    the raw map, and in the numeric map exactly when [ParseFloat] returns
    no error for it.  A line that is not accepted changes nothing, and no
    line makes the sample fail: when the connection, the deadline, the
    request and the scanner report no error, the sample returns the
    snapshot whose maps are obtained by treating every line before the
    terminator in this way, whatever the lines are. *)
Theorem statLine_spec line values raw :
  (is_Some (accepted line)
   <-> (3 <= length (strings.Fields line))%nat
       /\ strings.Fields line !! 0%nat = Some "STAT")
  /\ (forall key value, accepted line = Some (key, value) ->
        strings.Fields line !! 1%nat = Some key
        /\ value = strings.Join (drop 2 (strings.Fields line)) " "
        /\ (statLine ParseFloat line (values, raw)).2 = <[key := value]> raw
        /\ (statLine ParseFloat line (values, raw)).1
           = match ParseFloat value with
             | Some number => <[key := number]> values
             | None => values
             end)
  /\ (accepted line = None ->
        statLine ParseFloat line (values, raw) = (values, raw))
  /\ (forall x, dialErr x = None -> deadlineErr x = None ->
        writeErr x = None -> scanErr x = None ->
        fetchStats ParseFloat x
        = inr {| Timestamp := now x;
                 Values := (foldl (fun st l => statLine ParseFloat l st)
                              (∅, ∅) (beforeEnd (scanLines x))).1;
                 Raw := (foldl (fun st l => statLine ParseFloat l st)
                           (∅, ∅) (beforeEnd (scanLines x))).2 |}).
Proof.
  split; [apply accepted_tokens|]. split; [|split].
  - intros key value Hacc. rewrite statLine_accepted, Hacc.
    unfold accepted in Hacc.
    destruct (strings.Fields line) as [|f0 [|f1 [|f2 fs]]]; try discriminate.
    destruct (String.eqb f0 "STAT"); [|discriminate].
    injection Hacc as <- <-. repeat split.
  - intros Hacc. rewrite statLine_accepted, Hacc. reflexivity.
  - intros x Hd Hl Hw Hs. unfold fetchStats.
    rewrite Hd, Hl, Hw, Hs, scanLoop_foldl.
    destruct (foldl _ _ _) as [vs rw]. reflexivity.
Qed.

(** C4.  In every snapshot the sampler returns, the keys of the numeric map
    are keys of the raw map. *)
Theorem fetchStats_values_in_raw x s :
  fetchStats ParseFloat x = inr s -> dom (Values s) ⊆ dom (Raw s).
Proof.
  intros H. rewrite (fetchStats_inr _ _ _ H). simpl.
  apply foldl_statLine_dom. reflexivity.
Qed.

(** C10, as amended.  When several accepted lines before the terminator
    carry the same key, the raw map holds the value of the last of them,
    and the numeric map the number of the last of them whose value parses:
    that of the last line when it parses, and otherwise what the lines
    before it left, so that an earlier number stays beside a later raw
    value.  No such line makes the sample fail. *)
Theorem fetchStats_last_line_wins x s key :
  fetchStats ParseFloat x = inr s ->
  Raw s !! key = lastValue key (beforeEnd (scanLines x))
  /\ Values s !! key = lastNumber ParseFloat key (beforeEnd (scanLines x))
  /\ (forall pre line post value,
        beforeEnd (scanLines x) = pre ++ line :: post ->
        accepted line = Some (key, value) ->
        Forall (fun l => forall k v, accepted l = Some (k, v) -> k <> key) post ->
        Raw s !! key = Some value
        /\ Values s !! key
           = match ParseFloat value with
             | Some number => Some number
             | None => lastNumber ParseFloat key pre
             end).
Proof.
  intros H. rewrite (fetchStats_inr _ _ _ H). cbn [Raw Values].
  destruct (foldl_statLine_last ParseFloat (beforeEnd (scanLines x)) key (∅, ∅))
    as [Eraw Eval].
  cbn [fst snd] in Eraw, Eval.
  rewrite lookup_empty in Eraw. rewrite lookup_empty in Eval.
  split; [exact Eraw|]. split; [exact Eval|].
  intros pre line post value Hlines Hacc Hpost.
  rewrite Hlines, foldl_app. cbn [foldl].
  destruct (foldl_statLine_other_key ParseFloat post key
              (statLine ParseFloat line
                 (foldl (fun st l => statLine ParseFloat l st) (∅, ∅) pre))
              Hpost) as [E1 E2].
  rewrite E1, E2.
  destruct (foldl_statLine_last ParseFloat pre key (∅, ∅)) as [_ Epre].
  cbn [fst snd] in Epre. rewrite lookup_empty in Epre.
  destruct (foldl _ _ pre) as [vs rw]. cbn [fst] in Epre.
  rewrite statLine_accepted, Hacc. split.
  - apply lookup_insert_eq.
  - destruct (ParseFloat value); cbn [fst]; [apply lookup_insert_eq|exact Epre].
Qed.
End SamplerClaims.

(** C3 as stated fails on the named values of [strconv.ParseFloat]: the
    value "NaN" is stored in the numeric map although it is no finite
    number, and so is "+Inf". *)
Lemma statLine_spec_counterexample :
  accepted "STAT threads NaN" = Some ("threads", "NaN")
  /\ (statLine strconv.ParseFloat "STAT threads NaN" (∅, ∅)).1 !! "threads"
     = Some nan
  /\ is_finite nan = false
  /\ (statLine strconv.ParseFloat "STAT limit_maxbytes +Inf" (∅, ∅)).1
       !! "limit_maxbytes" = Some infinity
  /\ is_finite infinity = false.
Proof. repeat split; reflexivity. Qed.

(** C3 as amended, on the exchange of the repository's sampler test. *)
Lemma statLine_spec_witness :
  (exists s, fetchStats strconv.ParseFloat testExchange = inr s
             /\ Values s = {[ "cmd_get" := 42%float ]}
             /\ Raw s !! "version" = Some "1.6.9"
             /\ Raw s !! "evictions" = Some "not_a_number")
  /\ statLine strconv.ParseFloat "cmd_get 42" (∅, ∅) = (∅, ∅).
Proof.
  split.
  - eexists. split.
    + apply (statLine_spec strconv.ParseFloat "" ∅ ∅); reflexivity.
    + repeat split; reflexivity.
  - apply (statLine_spec strconv.ParseFloat "cmd_get 42" ∅ ∅). reflexivity.
Defined.

(** C4 on the exchange of the repository's sampler test. *)
Lemma fetchStats_values_in_raw_witness :
  fetchStats strconv.ParseFloat testExchange
  = inr {| Timestamp := 1;
           Values := {[ "cmd_get" := 42%float ]};
           Raw := {[ "cmd_get" := "42"; "version" := "1.6.9";
                     "evictions" := "not_a_number" ]} |}
  /\ dom ({[ "cmd_get" := 42%float ]} : gmap string float)
     ⊆ dom ({[ "cmd_get" := "42"; "version" := "1.6.9";
               "evictions" := "not_a_number" ]} : gmap string string).
Proof.
  split; [reflexivity|].
  exact (fetchStats_values_in_raw strconv.ParseFloat testExchange _ eq_refl).
Defined.

(** C10 as stated fails when the last line for a key does not parse: the
    raw map holds its value, but the numeric map still holds the number of
    the earlier line, which is not overwritten. *)
Lemma fetchStats_last_line_wins_counterexample :
  exists s, fetchStats strconv.ParseFloat staleExchange = inr s
    /\ beforeEnd (scanLines staleExchange)
       = ["STAT threads 4"; "STAT threads many"]
    /\ accepted "STAT threads 4" = Some ("threads", "4")
    /\ accepted "STAT threads many" = Some ("threads", "many")
    /\ Raw s !! "threads" = Some "many"
    /\ strconv.ParseFloat "many" = None
    /\ Values s !! "threads" = Some 4%float.
Proof. eexists. repeat split; reflexivity. Qed.

(** C10 as amended, on an exchange that sends one key three times, the
    last time with a number, and on one that sends it with a number and
    then with a word. *)
Lemma fetchStats_last_line_wins_witness :
  (exists s, fetchStats strconv.ParseFloat repeatedExchange = inr s
             /\ Raw s !! "threads" = Some "8"
             /\ Values s !! "threads" = Some 8%float)
  /\ (exists s, fetchStats strconv.ParseFloat staleExchange = inr s
                /\ Raw s !! "threads" = Some "many"
                /\ Values s !! "threads" = Some 4%float).
Proof.
  split; eexists; (split; [reflexivity|]).
  - destruct (fetchStats_last_line_wins strconv.ParseFloat repeatedExchange _
                "threads" eq_refl) as (Hraw & Hval & _).
    split; [exact Hraw|exact Hval].
  - destruct (fetchStats_last_line_wins strconv.ParseFloat staleExchange _
                "threads" eq_refl) as (Hraw & Hval & _).
    split; [exact Hraw|exact Hval].
Defined.

(** ** The scheduler (C5, C6) *)

Section Scheduler.
Variable ParseFloat : string -> option float.

(** C5.  A key event that carries the rune r or R, and is neither Escape
    nor Ctrl-C, sets the previous snapshot to absent and the rate table to
    empty, keeps the latest snapshot and the stored error, draws the screen
    once from the new state, and lets the loop go on. *)
Theorem reset_transition (st : loopState) (key : Key) (r : rune) :
  key = KeyOther ->
  r = byteVal "r" \/ r = byteVal "R" ->
  step ParseFloat st (Input (EventKey key r))
  = ({| currentStats := currentStats st; prevStats := None;
        rates := Some ∅; lastErr := lastErr st |},
     [DrawScreen (currentStats st) (Some ∅) (lastErr st)],
     true).
Proof. intros -> [-> | ->]; reflexivity. Qed.

(** C6.  On a timer tick the sampler runs.  If it fails, the error is
    stored and the latest snapshot, the previous snapshot and the rate
    table stay as they were.  If it succeeds, the stored error is cleared,
    the rate table is computed against the previous snapshot when there is
    one and is empty otherwise, and the new snapshot becomes both the
    latest and the previous one.  Either way the screen is drawn once from
    the new state and the loop goes on. *)
Theorem tick_transition (st : loopState) (x : exchange) :
  let '(st', effects, continue) := step ParseFloat st (Tick x) in
  (forall err, fetchStats ParseFloat x = inl err ->
     lastErr st' = Some err
     /\ currentStats st' = currentStats st
     /\ prevStats st' = prevStats st
     /\ rates st' = rates st)
  /\ (forall stats, fetchStats ParseFloat x = inr stats ->
        lastErr st' = None
        /\ rates st'
           = Some (match prevStats st with
                   | Some prev => calculateRates (Some stats) (Some prev)
                   | None => ∅
                   end)
        /\ prevStats st' = Some stats
        /\ currentStats st' = Some stats)
  /\ effects = [DrawScreen (currentStats st') (rates st') (lastErr st')]
  /\ continue = true.
Proof.
  cbn [step]. destruct (fetchStats ParseFloat x) as [err|stats].
  - split; [intros ? [= <-]; repeat split|]. split; [discriminate|].
    split; reflexivity.
  - split; [discriminate|]. split; [|split; reflexivity].
    intros ? [= <-]. cbn. destruct (prevStats st); repeat split.
Qed.
End Scheduler.

(** C5 at a state that holds a snapshot, a baseline, rates and an error. *)
Lemma reset_transition_witness :
  step strconv.ParseFloat busyState (Input (EventKey KeyOther 82))
  = ({| currentStats := Some currSample; prevStats := None;
        rates := Some ∅; lastErr := Some "i/o timeout" |},
     [DrawScreen (Some currSample) (Some ∅) (Some "i/o timeout")],
     true).
Proof.
  exact (reset_transition strconv.ParseFloat busyState KeyOther 82
           eq_refl (or_intror eq_refl)).
Defined.

(** C6 at the same state: a refused connection keeps everything but the
    error, and a successful sample replaces everything. *)
Lemma tick_transition_witness :
  (let '(st', _, _) := step strconv.ParseFloat busyState (Tick refusedExchange) in
   lastErr st' = Some "connection refused"
   /\ currentStats st' = Some currSample
   /\ rates st' = Some {[ "cmd_get" := 20%float ]})
  /\ (let '(st', _, _) := step strconv.ParseFloat initialState (Tick testExchange) in
      lastErr st' = None /\ rates st' = Some ∅
      /\ prevStats st' = currentStats st'
      /\ is_Some (currentStats st')).
Proof.
  split.
  - pose proof (tick_transition strconv.ParseFloat busyState refusedExchange) as H.
    destruct (step strconv.ParseFloat busyState (Tick refusedExchange)) as [[st' e] c].
    destruct H as (H & _). destruct (H _ eq_refl) as (H1 & H2 & _ & H4).
    repeat split; assumption.
  - pose proof (tick_transition strconv.ParseFloat initialState testExchange) as H.
    destruct (step strconv.ParseFloat initialState (Tick testExchange)) as [[st' e] c].
    destruct H as (_ & H & _). destruct (H _ eq_refl) as (H1 & H2 & H3 & H4).
    rewrite H1, H2, H3, H4. repeat split. eexists; reflexivity.
Defined.

(** ** Comparisons and division by 1024 *)

Section CompareFacts.
Lemma SFcompare_antisym (x y : spec_float) :
  SFcompare y x = CompOpp <$> SFcompare x y.
Proof.
  destruct x as [sx|sx| |sx mx ex], y as [sy|sy| |sy my ey]; simpl;
    try reflexivity; try (destruct sx; reflexivity);
    try (destruct sy; reflexivity); try (destruct sx, sy; reflexivity).
  assert (Hp : Pos.compare_cont Eq mx my = CompOpp (Pos.compare_cont Eq my mx))
    by (rewrite Pos.compare_cont_antisym; reflexivity).
  rewrite Hp, (Z.compare_antisym ey ex).
  destruct sx, sy, (ey ?= ex), (Pos.compare_cont Eq my mx); reflexivity.
Qed.

(** Without NaN the order is total: what is not at least [y] is below it. *)
Lemma SFleb_false_ltb (x y : spec_float) :
  x <> S754_nan -> y <> S754_nan -> SFleb y x = false -> SFltb x y = true.
Proof.
  intros Hx Hy. unfold SFleb, SFltb. rewrite (SFcompare_antisym y x).
  destruct (SFcompare y x) as [[]|] eqn:E; simpl; try discriminate; try reflexivity.
  destruct x, y; try contradiction; simpl in E; try discriminate;
    repeat match goal with s : bool |- _ => destruct s end; discriminate.
Qed.

Lemma shr_fexp_nonneg (m e : Z) (l : location) :
  0 <= m -> 0 <= shr_m (fst (shr_fexp prec emax m e l)).
Proof.
  intros Hm. unfold shr_fexp, shr.
  assert (H0 : shr_m (shr_record_of_loc m l) = m) by (destruct l as [|[]]; reflexivity).
  destruct (fexp prec emax (Zdigits2 m + e) - e) as [|n|n]; simpl; rewrite ?H0; trivial.
  apply iter_shr_1_lower; [lia|]. rewrite H0. lia.
Qed.

Lemma binary_round_aux_not_nan (s : bool) (m e : Z) (l : location) :
  0 <= m -> binary_round_aux prec emax s m e l <> S754_nan.
Proof.
  intros Hm. unfold binary_round_aux.
  pose proof (shr_fexp_nonneg m e l Hm) as H1.
  destruct (shr_fexp prec emax m e l) as [r1 e1]. simpl in H1.
  assert (H2 : 0 <= round_nearest_even (shr_m r1) (loc_of_shr_record r1)).
  { destruct (loc_of_shr_record r1) as [|[]]; simpl; try lia.
    destruct (Z.even (shr_m r1)); lia. }
  pose proof (shr_fexp_nonneg _ e1 loc_Exact H2) as H3.
  destruct (shr_fexp prec emax _ e1 loc_Exact) as [r2 e2]. simpl in H3.
  destruct (shr_m r2); try lia; [discriminate|].
  destruct (e2 <=? emax - prec); discriminate.
Qed.

Lemma SFdiv_core_nonneg (m1 m2 : positive) (e1 e2 : Z) :
  0 <= fst (fst (SFdiv_core_binary prec emax (Z.pos m1) e1 (Z.pos m2) e2)).
Proof.
  unfold SFdiv_core_binary.
  set (m' := match _ - _ - _ with Z.pos _ => _ | Z0 => _ | Z.neg _ => _ end).
  assert (Hm' : 0 <= m').
  { unfold m'. destruct (_ - _ - _); try lia. apply Z.shiftl_nonneg. lia. }
  pose proof (Z_div_mod m' (Z.pos m2) ltac:(lia)) as H.
  destruct (Z.div_eucl m' (Z.pos m2)) as [q r]. simpl. nia.
Qed.

(** A value that is at least 1024 divides by 1024 into a value that is not
    NaN. *)
Lemma SFdiv_1024_not_nan (x : spec_float) :
  SFleb (Prim2SF 1024) x = true -> SF64div x (Prim2SF 1024) <> S754_nan.
Proof.
  change (Prim2SF 1024) with (S754_finite false 4503599627370496 (-42)).
  destruct x as [s|[]| |[] m e]; simpl; try discriminate.
  intros _. unfold SF64div, SFdiv.
  pose proof (SFdiv_core_nonneg m 4503599627370496 e (-42)) as Hq.
  destruct (SFdiv_core_binary _ _ _ _ _ _) as [[q e'] l]. simpl in Hq.
  apply binary_round_aux_not_nan. exact Hq.
Qed.
End CompareFacts.

Section FloatOrder.
Lemma is_nan_spec (x : float) : is_nan x = false <-> Prim2SF x <> S754_nan.
Proof.
  unfold is_nan. rewrite FloatAxioms.eqb_spec. unfold SFeqb.
  destruct (Prim2SF x) as [s|[]| |s m e]; simpl;
    rewrite ?Z.compare_refl, ?Pos.compare_cont_refl;
    try (destruct s; simpl); split; auto; try discriminate; intros H; congruence.
Qed.

Lemma leb_false_ltb (x y : float) :
  is_nan x = false -> is_nan y = false ->
  (y <=? x)%float = false -> (x <? y)%float = true.
Proof.
  rewrite !is_nan_spec, FloatAxioms.leb_spec, FloatAxioms.ltb_spec.
  apply SFleb_false_ltb.
Qed.

Lemma div_1024_not_nan (x : float) :
  (1024 <=? x)%float = true -> is_nan (x / 1024)%float = false.
Proof.
  rewrite FloatAxioms.leb_spec, is_nan_spec, div_spec. apply SFdiv_1024_not_nan.
Qed.

Lemma leb_true_not_nan (x y : float) : (x <=? y)%float = true -> is_nan y = false.
Proof.
  rewrite FloatAxioms.leb_spec, is_nan_spec. intros H E. rewrite E in H.
  destruct (Prim2SF x); discriminate.
Qed.
End FloatOrder.

(** ** Byte counts (C7) *)

Section ByteCounts.
Lemma scaleBytes_spec (remaining : nat) : forall (b : float) (idx0 : nat),
  is_nan b = false ->
  exists k : nat,
    (k <= remaining)%nat
    /\ scaleBytes remaining b idx0 = (scaled b k, (idx0 + k)%nat)
    /\ (forall j, (j < k)%nat -> (1024 <=? scaled b j)%float = true)
    /\ ((k < remaining)%nat -> (scaled b k <? 1024)%float = true).
Proof.
  induction remaining as [|n IH]; intros b idx0 Hb.
  - exists 0%nat. simpl. rewrite Nat.add_0_r. repeat split; intros; lia.
  - cbn [scaleBytes]. destruct (1024 <=? b)%float eqn:Hge.
    + destruct (IH (b / 1024)%float (S idx0) (div_1024_not_nan b Hge))
        as (k & Hk & Heq & Hlow & Hup).
      exists (S k). split; [lia|]. split; [|split].
      * rewrite Heq. cbn [scaled]. f_equal. lia.
      * intros [|j] Hj; cbn [scaled]; [exact Hge|]. apply Hlow. lia.
      * intros Hlt. cbn [scaled]. apply Hup. lia.
    + exists 0%nat. split; [lia|]. split; [|split].
      * rewrite Nat.add_0_r. reflexivity.
      * intros j Hj. lia.
      * intros _. apply leb_false_ltb; [exact Hb|reflexivity|exact Hge].
Qed.

(** C7, as amended.  For every input that is not NaN, the formatter
    replaces an input below zero by zero, divides by 1024 as long as the
    value is at least 1024 and a larger unit exists, so that the unit it
    prints is the first of B, KB, MB, GB, TB, PB whose scaled value is
    below 1024 (PB when there is none), and prints the scaled value with
    the verb [%.0f] for B and [%.1f] for every other unit.  The four
    inputs of the repository's test are rendered as it expects. *)
Theorem formatBytes_spec (b : float) :
  (is_nan b = false ->
   let b0 := if (b <? 0)%float then 0%float else b in
   exists idx : nat,
     (idx <= 5)%nat
     /\ (forall j, (j < idx)%nat -> (1024 <=? scaled b0 j)%float = true)
     /\ ((idx < 5)%nat -> (scaled b0 idx <? 1024)%float = true)
     /\ formatBytes b
        = fmt.verb_f (if (idx =? 0)%nat then 0 else 1) (scaled b0 idx)
          +:+ " " +:+ nth idx units "")
  /\ formatBytes 512 = "512 B"
  /\ formatBytes 1024 = "1.0 KB"
  /\ formatBytes (1.5 * 1024 * 1024) = "1.5 MB"
  /\ formatBytes (-10) = "0 B".
Proof.
  split; [|repeat split; reflexivity].
  intros Hb b0.
  assert (Hb0 : is_nan b0 = false).
  { unfold b0. destruct (b <? 0)%float; [reflexivity|exact Hb]. }
  destruct (scaleBytes_spec (length units - 1) b0 0 Hb0) as (k & Hk & Heq & Hlow & Hup).
  exists k. split; [exact Hk|]. split; [exact Hlow|]. split; [exact Hup|].
  unfold formatBytes. fold b0. rewrite Heq. cbn [Nat.add].
  destruct (k =? 0)%nat; reflexivity.
Qed.
End ByteCounts.

(** C7 as stated fails on NaN, which is rendered in the unit B although it
    is not below 1024; and the unit it describes, the largest one whose
    scaled value is below 1024, is not the one printed: 512 is printed in
    B although 512 / 1024^5 is below 1024 as well. *)
Lemma formatBytes_spec_counterexample :
  (formatBytes nan = "NaN B" /\ (nan <? 1024)%float = false)
  /\ (formatBytes 512 = "512 B" /\ (scaled 512 5 <? 1024)%float = true).
Proof. repeat split; reflexivity. Qed.

(** C7 as amended, at 3 GiB: two divisions are not enough, the third
    gives 3.0. *)
Lemma formatBytes_spec_witness :
  is_nan 3221225472 = false
  /\ exists idx : nat,
       (idx < 5)%nat
       /\ (scaled 3221225472 idx <? 1024)%float = true
       /\ formatBytes 3221225472
          = fmt.verb_f (if (idx =? 0)%nat then 0 else 1)
              (scaled 3221225472 idx) +:+ " " +:+ nth idx units "".
Proof.
  split; [reflexivity|].
  destruct (proj1 (formatBytes_spec 3221225472) eq_refl) as (idx & H5 & Hlow & Hup & Heq).
  exists idx.
  assert (Hidx : (idx < 5)%nat).
  { destruct (Nat.eq_dec idx 5%nat) as [->|]; [|lia].
    specialize (Hlow 4%nat ltac:(lia)). vm_compute in Hlow. discriminate. }
  split; [exact Hidx|]. split; [exact (Hup Hidx)|exact Heq].
Defined.

(** ** Durations (C8) *)

Section Durations.
Lemma wrap_in_range (z : Z) : Int64.in_range z -> Int64.wrap z = z.
Proof.
  unfold Int64.in_range, Int64.wrap, Int64.min_int, Int64.max_int. intros H.
  rewrite Z.mod_small; lia.
Qed.

Lemma shiftl_pos_bounds (m : positive) (e : Z) :
  0 <= Z.shiftl (Z.pos m) e
  /\ (e <= 0 -> Z.shiftl (Z.pos m) e <= Z.pos m)
  /\ (0 <= e -> Z.shiftl (Z.pos m) e = Z.pos m * 2 ^ e).
Proof.
  split; [apply Z.shiftl_nonneg; lia|]. split.
  - intros He. rewrite <- (Z.opp_involutive e), Z.shiftl_opp_r, Z.shiftr_div_pow2 by lia.
    assert (0 < 2 ^ (- e)) by (apply Z.pow_pos_nonneg; lia).
    apply Z.div_le_upper_bound; [lia|nia].
  - intros He. apply Z.shiftl_mul_pow2. exact He.
Qed.

(** A float that is not below zero and is below 2^63 converts to an
    integer without overflow: the conversion is the truncation and lies in
    the int64 range. *)
Lemma int64_of_float64_in_range (x : float) :
  not_negative (Prim2SF x) -> (x <? 9223372036854775808)%float = true ->
  0 <= int64_of_float64 x <= Int64.max_int.
Proof.
  rewrite FloatAxioms.ltb_spec.
  change (Prim2SF 9223372036854775808) with (S754_finite false 4503599627370496 11).
  unfold int64_of_float64. pose proof (Prim2SF_valid x) as Hv.
  intros Hnn Hlt. destruct Hnn as [|s| |m e]; try discriminate.
  { simpl. unfold Int64.max_int. lia. }
  simpl SFtrunc. simpl in Hv. apply bounded_inv in Hv as (_ & Hm & _).
  destruct (shiftl_pos_bounds m e) as (H0 & Hneg & Hpos).
  assert (Hz : Z.shiftl (Z.pos m) e <= Int64.max_int).
  { unfold Int64.max_int. unfold prec in Hm.
    change (2 ^ 53) with 9007199254740992 in Hm.
    change (2 ^ 63 - 1) with 9223372036854775807.
    unfold SFltb, SFcompare in Hlt.
    destruct (Z.compare_spec e 11) as [->|He|He]; try discriminate.
    - rewrite Pos.compare_cont_spec in Hlt. simpl Pos.switch_Eq in Hlt.
      destruct (Pos.compare_spec m 4503599627370496) as [|Hlt'|]; try discriminate.
      assert (Hm' : Z.pos m < 4503599627370496) by exact Hlt'.
      rewrite Hpos by (clear; lia). change (2 ^ 11) with 2048.
      clear - Hm'. lia.
    - destruct (Z.le_gt_cases e 0) as [Hle|Hgt].
      + specialize (Hneg Hle). clear - Hneg Hm. lia.
      + rewrite Hpos by (clear - Hgt; lia).
        assert (H10 : 2 ^ e <= 2 ^ 10) by (apply Z.pow_le_mono_r; clear - He; lia).
        change (2 ^ 10) with 1024 in H10.
        assert (Hp : 0 < 2 ^ e) by (apply Z.pow_pos_nonneg; clear - Hgt; lia).
        clear - Hm H10 Hp. nia. }
  assert (Hlo : Int64.min_int <= Z.shiftl (Z.pos m) e)
    by (unfold Int64.min_int; clear - H0; lia).
  simpl cond_Zopp.
  apply Z.leb_le in Hlo, Hz. rewrite Hlo, Hz. simpl.
  apply Z.leb_le in Hz. clear - H0 Hz. lia.
Qed.

Lemma ltb_zero_leb (x : float) :
  (0 <? x)%float = true -> (x <=? 0)%float = false.
Proof.
  rewrite FloatAxioms.ltb_spec, FloatAxioms.leb_spec.
  change (Prim2SF 0) with (S754_zero false).
  destruct (Prim2SF x) as [s|[]| |[] m e]; simpl; try discriminate; reflexivity.
Qed.

(** The nanoseconds of a positive number of seconds are not below zero. *)
Lemma nanoseconds_not_negative (seconds : float) :
  (0 <? seconds)%float = true -> not_negative (Prim2SF (seconds * 1e9)).
Proof.
  rewrite FloatAxioms.ltb_spec, mul_spec.
  change (Prim2SF 0) with (S754_zero false).
  change (Prim2SF 1e9) with (S754_finite false 8388608000000000 (-23)).
  destruct (Prim2SF seconds) as [s|[]| |[] m e]; simpl; try discriminate;
    intros _; [constructor|].
  unfold SF64mul, SFmul.
  pose proof (binary_round_aux_sign (xorb false false)
                (Z.pos (m * 8388608000000000)) (e + -23) loc_Exact) as Hs.
  destruct (binary_round_aux _ _ _ _ _ _); simpl in Hs; subst; constructor.
Qed.

Lemma quot_exact (a b : Z) :
  0 <= a <= Int64.max_int -> 0 < b -> Int64.quot a b = a / b.
Proof.
  intros Ha Hb. unfold Int64.quot. rewrite Z.quot_div_nonneg by lia.
  apply wrap_in_range. unfold Int64.in_range, Int64.min_int, Int64.max_int in *.
  pose proof (Z.div_pos a b ltac:(lia) Hb).
  pose proof (Z.div_le_upper_bound a b a Hb ltac:(nia)). lia.
Qed.

(** The remainder left after taking out the whole multiples of [b]. *)
Lemma sub_mul_exact (a b : Z) :
  0 <= a <= Int64.max_int -> 0 < b ->
  Int64.sub a (Int64.mul (a / b) b) = a mod b.
Proof.
  intros Ha Hb. unfold Int64.sub, Int64.mul.
  pose proof (Z.div_mod a b ltac:(lia)). pose proof (Z.mod_pos_bound a b Hb).
  pose proof (Z.div_pos a b ltac:(lia) Hb).
  rewrite (wrap_in_range (a / b * b)), wrap_in_range;
    unfold Int64.in_range, Int64.min_int, Int64.max_int in *; nia.
Qed.

Lemma verb_02d_two_digits (n : Z) :
  0 <= n < 100 -> String.length (fmt.verb_02d n) = 2%nat.
Proof.
  intros Hn. rewrite <- (Z2Nat.id n) by lia.
  assert (Hlt : (Z.to_nat n < 100)%nat) by lia.
  generalize dependent (Z.to_nat n). clear. intros k Hk.
  do 100 (destruct k as [|k]; [reflexivity|]). lia.
Qed.

Lemma mod_mul_div (a b c : Z) :
  0 < b -> 0 < c -> a mod (b * c) / b = a / b mod c.
Proof.
  intros Hb Hc. rewrite Z.rem_mul_r by lia.
  rewrite (Z.mul_comm b), Z.div_add by lia.
  rewrite (Z.div_small (a mod b)) by (apply Z.mod_pos_bound; lia). lia.
Qed.

Lemma mod_mul_mod (a b c : Z) :
  0 < b -> 0 < c -> a mod (b * c) mod b = a mod b.
Proof.
  intros Hb Hc. rewrite Z.rem_mul_r by lia.
  rewrite (Z.mul_comm b), Z.mod_add by lia. apply Z.mod_mod. lia.
Qed.

(** The days are taken out with two multiplications, [days * 24 * Hour]. *)
Lemma sub_days_exact (d : Z) :
  0 <= d <= Int64.max_int ->
  Int64.sub d (Int64.mul (Int64.mul (d / (24 * time.Hour)) 24) time.Hour)
  = d mod (24 * time.Hour).
Proof.
  intros Hd. unfold Int64.sub, Int64.mul.
  change time.Hour with 3600000000000 in *. change (24 * 3600000000000) with 86400000000000.
  pose proof (Z.div_mod d 86400000000000 ltac:(lia)).
  pose proof (Z.mod_pos_bound d 86400000000000 ltac:(lia)).
  pose proof (Z.div_pos d 86400000000000 ltac:(lia) ltac:(lia)).
  unfold Int64.max_int in Hd.
  rewrite (wrap_in_range (d / 86400000000000 * 24)),
          (wrap_in_range (d / 86400000000000 * 24 * 3600000000000)), wrap_in_range;
    unfold Int64.in_range, Int64.min_int, Int64.max_int; lia.
Qed.
End Durations.

Section Uptime.
(** C8, as amended.  A number of seconds that is at most zero is rendered
    as "0s".  A positive one whose nanoseconds are below 2^63 is converted
    to a whole number [d] of nanoseconds, and is rendered as the hours of
    the day, the minutes of the hour and the rounded seconds of the minute,
    each with the verb [%02d], after the whole days with the verb [%d] and
    the letter d exactly when [d] holds at least one day; the hours and
    the minutes take two characters each.  The three inputs of the
    repository's test are rendered as it expects. *)
Theorem formatUptime_spec (seconds : float) :
  ((seconds <=? 0)%float = true -> formatUptime seconds = "0s")
  /\ ((0 <? seconds)%float = true ->
      (seconds * 1e9 <? 9223372036854775808)%float = true ->
      let d := int64_of_float64 (seconds * 1e9) in
      let days := d / (24 * time.Hour) in
      let hours := d / time.Hour mod 24 in
      let minutes := d / time.Minute mod 60 in
      let secs :=
        int64_of_float64 (math.Round (time.Seconds (d mod time.Minute))) in
      let clock :=
        fmt.verb_02d hours +:+ "h " +:+ fmt.verb_02d minutes +:+ "m "
        +:+ fmt.verb_02d secs +:+ "s" in
      0 <= d
      /\ (0 <? days) = (24 * time.Hour <=? d)
      /\ formatUptime seconds
         = (if 0 <? days then fmt.verb_d days +:+ "d " +:+ clock else clock)
      /\ String.length (fmt.verb_02d hours) = 2%nat
      /\ String.length (fmt.verb_02d minutes) = 2%nat)
  /\ formatUptime 0 = "0s"
  /\ formatUptime 3661 = "01h 01m 01s"
  /\ formatUptime 90061 = "1d 01h 01m 01s".
Proof.
  split; [|split; [|repeat split; reflexivity]].
  { intros H. unfold formatUptime. rewrite H. reflexivity. }
  intros Hpos Hlt d days hours minutes secs clock.
  assert (Hd : 0 <= d <= Int64.max_int).
  { apply int64_of_float64_in_range; [apply nanoseconds_not_negative|]; assumption. }
  assert (HH : 0 < time.Hour) by reflexivity.
  assert (HM : 0 < time.Minute) by reflexivity.
  assert (HD : 0 < 24 * time.Hour) by reflexivity.
  pose proof (Z.mod_pos_bound d (24 * time.Hour) HD) as B1.
  pose proof (Z.mod_pos_bound (d mod (24 * time.Hour)) time.Hour HH) as B2.
  assert (E1 : d mod (24 * time.Hour) / time.Hour = hours).
  { unfold hours. rewrite (Z.mul_comm 24). apply mod_mul_div; lia. }
  assert (E2 : d mod (24 * time.Hour) mod time.Hour = d mod time.Hour).
  { rewrite (Z.mul_comm 24). apply mod_mul_mod; lia. }
  assert (E3 : d mod time.Hour / time.Minute = minutes).
  { unfold minutes. change time.Hour with (time.Minute * 60). apply mod_mul_div; lia. }
  assert (E4 : d mod time.Hour mod time.Minute = d mod time.Minute).
  { change time.Hour with (time.Minute * 60). apply mod_mul_mod; lia. }
  split; [lia|]. split; [|split; [|split]].
  - unfold days. destruct (Z.leb_spec (24 * time.Hour) d) as [Hge|Hlt'].
    + apply Z.ltb_lt. apply Z.div_str_pos. lia.
    + apply Z.ltb_ge. rewrite Z.div_small by lia. lia.
  - unfold formatUptime. rewrite (ltb_zero_leb _ Hpos).
    change (float64_of_int time.Second) with 1e9%float. fold d.
    rewrite (quot_exact d (24 * time.Hour) Hd HD), (sub_days_exact d Hd).
    assert (H1 : 0 <= d mod (24 * time.Hour) <= Int64.max_int).
    { unfold Int64.max_int in *. change (24 * time.Hour) with 86400000000000 in *. lia. }
    rewrite (quot_exact _ time.Hour H1 HH), (sub_mul_exact _ time.Hour H1 HH).
    rewrite E1, E2.
    pose proof (Z.mod_pos_bound d time.Hour HH) as B3.
    assert (H2 : 0 <= d mod time.Hour <= Int64.max_int).
    { unfold Int64.max_int in *. change time.Hour with 3600000000000 in *. lia. }
    rewrite (quot_exact _ time.Minute H2 HM), (sub_mul_exact _ time.Minute H2 HM).
    rewrite E3, E4. reflexivity.
  - apply verb_02d_two_digits. unfold hours. pose proof (Z.mod_pos_bound (d / time.Hour) 24). lia.
  - apply verb_02d_two_digits. unfold minutes. pose proof (Z.mod_pos_bound (d / time.Minute) 60). lia.
Qed.
End Uptime.

(** C8 as stated fails above 2^63 nanoseconds: ten thousand million
    seconds are more than a hundred thousand days, yet no day is printed
    and the fields are negative. *)
Lemma formatUptime_spec_counterexample :
  (0 <? 1e10)%float = true /\ formatUptime 1e10 = "-23h -47m -17s".
Proof. split; reflexivity. Qed.

(** C8 as amended, at two days, three hours, four minutes and five and a
    half seconds. *)
Lemma formatUptime_spec_witness :
  (0 <? 183845.5)%float = true
  /\ (183845.5 * 1e9 <? 9223372036854775808)%float = true
  /\ formatUptime 183845.5 = "2d 03h 04m 06s".
Proof.
  split; [reflexivity|]. split; [reflexivity|].
  destruct (proj1 (proj2 (formatUptime_spec 183845.5)) eq_refl eq_refl)
    as (_ & _ & H & _).
  rewrite H. reflexivity.
Defined.

(** ** Text drawing (C9) *)

Section Drawing.
(** A rune takes between one and four bytes. *)
Lemma DecodeRuneInString_size (c : ascii) (s : string) :
  (1 <= (utf8.DecodeRuneInString (String c s)).2 <= 4)%nat.
Proof.
  unfold utf8.DecodeRuneInString.
  repeat match goal with
  | |- context [if ?b then _ else _] => destruct b
  | |- context [match utf8.cont ?lo ?hi ?t with _ => _ end] =>
      destruct (utf8.cont lo hi t) as [[? ?]|]
  end; simpl; lia.
Qed.

(** Without wrap-around: when a rune is written its column is below
    [width], so that the column of the next rune, at most four further, is
    still an [int].  The loop then writes a prefix of the runes, each at
    the column of its offset, and stops at the first one at or beyond
    [width]. *)
Lemma drawRunes_rangeFrom_prefix (width x y : Z) (style : Style) (s : string) :
  0 <= x -> width <= Int64.max_int - 3 ->
  forall (i : Z) (skip : nat),
  0 <= i -> x + i + Z.of_nat skip <= Int64.max_int ->
  exists n : nat,
    drawRunes width x y style (rangeFrom i skip s)
    = (fun p => SetContent (x + p.1) y p.2 style) <$> take n (rangeFrom i skip s)
    /\ Forall (fun w => cellY w = y /\ 0 <= cellX w < width)
         (drawRunes width x y style (rangeFrom i skip s))
    /\ (forall p, rangeFrom i skip s !! n = Some p -> width <= x + p.1).
Proof.
  intros Hx Hw. induction s as [|c s IH]; intros i skip Hi Hmax; cbn [rangeFrom].
  - exists 0%nat. repeat split; [constructor|intros p [=]].
  - destruct skip as [|k]; [|apply IH; lia].
    pose proof (DecodeRuneInString_size c s) as Hsize.
    destruct (utf8.DecodeRuneInString (String c s)) as [r size].
    cbn [snd] in Hsize. cbn [drawRunes]. unfold Int64.add.
    rewrite wrap_in_range
      by (unfold Int64.in_range, Int64.min_int, Int64.max_int in *; lia).
    destruct (Z.leb_spec width (x + i)) as [Hge|Hlt].
    + exists 0%nat. repeat split; [constructor|]. intros p [= <-]. exact Hge.
    + destruct (IH (i + 1) (size - 1)%nat) as (n & Heq & Hall & Hstop); [lia|lia|].
      exists (S n).
      split; [cbn [take fmap list_fmap]; rewrite Heq; reflexivity|].
      split; [constructor; [simpl; lia|exact Hall]|exact Hstop].
Qed.

(** C9.  When the starting column is a non-negative [int], every cell
    [drawText] sets lies on row [y], with [y] within the height and the
    column within the width of the screen, whatever the text and its
    length.  The cells are a prefix of the runes of the text in order,
    each at the column of its byte offset: the text is cut at the first
    rune that falls at or beyond the right edge, and nothing is written on
    another row.  The width is that of a screen, whose cells are held in
    memory: it stays below the largest [int] by three or more. *)
Theorem drawText_in_bounds (width height x y : Z) (style : Style) (text : string) :
  0 <= x <= Int64.max_int ->
  width <= Int64.max_int - 3 ->
  exists n : nat,
    drawText (width, height) x y style text
    = (fun p => SetContent (x + p.1) y p.2 style) <$> take n (rangeString text)
    /\ Forall (fun w => cellY w = y /\ 0 <= cellY w < height
                        /\ 0 <= cellX w < width)
         (drawText (width, height) x y style text)
    /\ (0 <= y < height ->
        forall p, rangeString text !! n = Some p -> width <= x + p.1).
Proof.
  intros [Hx Hmax] Hw. unfold drawText.
  destruct (Z.ltb_spec y 0) as [Hy|Hy].
  { exists 0%nat. repeat split; [constructor|lia]. }
  destruct (Z.leb_spec height y) as [Hh|Hh].
  { exists 0%nat. repeat split; [constructor|lia]. }
  destruct (drawRunes_rangeFrom_prefix width x y style text Hx Hw 0 0%nat)
    as (n & Heq & Hall & Hstop); [lia|lia|].
  exists n. split; [exact Heq|]. split; [|intros _; exact Hstop].
  eapply Forall_impl; [exact Hall|]. intros w [Hw1 Hw2]. rewrite Hw1. lia.
Qed.
End Drawing.

(** The bound on the width is what keeps the column arithmetic from
    wrapping around: on a surface as wide as the largest [int], which no
    screen is, a two-byte rune in the last column but one would put the
    next rune at the column of the smallest [int]. *)
Remark drawText_wraps_beyond_int :
  drawText (Int64.max_int, 3) (Int64.max_int - 1) 1 0 "é!"
  = [SetContent (Int64.max_int - 1) 1 233 0; SetContent Int64.min_int 1 33 0].
Proof. reflexivity. Qed.

(** C9 on a screen five columns wide: eleven runes are cut to the four
    whose offsets are below five. *)
Lemma drawText_in_bounds_witness :
  0 <= 0 <= Int64.max_int
  /\ 5 <= Int64.max_int - 3
  /\ Forall (fun w => cellY w = 1 /\ 0 <= cellY w < 3 /\ 0 <= cellX w < 5)
       (drawText (5, 3) 0 1 0 "héllo wörld")
  /\ length (drawText (5, 3) 0 1 0 "héllo wörld") = 4%nat.
Proof.
  assert (H0 : 0 <= 0 <= Int64.max_int) by (unfold Int64.max_int; lia).
  assert (H1 : 5 <= Int64.max_int - 3) by (unfold Int64.max_int; lia).
  split; [exact H0|]. split; [exact H1|].
  destruct (drawText_in_bounds 5 3 0 1 0 "héllo wörld" H0 H1) as (n & _ & Hall & _).
  split; [exact Hall|reflexivity].
Defined.

(** * Further properties *)

(** ** The scheduler *)

Section SchedulerMore.
Variable ParseFloat : string -> option float.

Lemma rates_not_below_zero (curr prev : statsSnapshot) (key : string) (r : float) :
  calculateRates (Some curr) (Some prev) !! key = Some r ->
  (r <? 0)%float = false.
Proof.
  unfold calculateRates.
  destruct (elapsedSeconds curr prev <=? 0)%float eqn:He.
  { rewrite lookup_empty. discriminate. }
  rewrite rates_fold_lookup.
  destruct (Values curr !! key) as [c|]; [|discriminate].
  destruct (Values prev !! key) as [p|]; [|discriminate].
  intros [= <-]. rewrite FloatAxioms.ltb_spec.
  change (Prim2SF 0) with (S754_zero false).
  destruct (rateOf_not_negative c p _ He) as [|[]| |]; reflexivity.
Qed.

Lemma rates_keys_current (curr prev : statsSnapshot) (key : string) :
  is_Some (calculateRates (Some curr) (Some prev) !! key) ->
  is_Some (Values curr !! key) /\ is_Some (Values prev !! key).
Proof.
  unfold calculateRates.
  destruct (elapsedSeconds curr prev <=? 0)%float.
  { rewrite lookup_empty. intros [? [=]]. }
  rewrite rates_fold_lookup.
  destruct (Values curr !! key) as [c|]; [|intros [? [=]]].
  destruct (Values prev !! key) as [p|]; [|intros [? [=]]].
  intros _. split; eexists; reflexivity.
Qed.

Lemma step_continue (st : loopState) (o : occurrence) :
  (step ParseFloat st o).2 = negb (quits o).
Proof.
  destruct o as [x|[key r| |]|]; cbn [step quits]; try reflexivity.
  destruct (_ || _ || _ || _); [reflexivity|].
  destruct (_ || _); reflexivity.
Qed.

Lemma step_quit (st : loopState) (o : occurrence) :
  quits o = true -> step ParseFloat st o = (st, [], false).
Proof.
  destruct o as [x|[key r| |]|]; cbn [step quits]; try discriminate; [|reflexivity].
  intros ->. reflexivity.
Qed.

(** X1.  Whatever the occurrence, the screen calls of one turn of the loop
    show the state the turn ends in: they are none, one drawing of that
    state, or a sync followed by one drawing of it; a turn that changes a
    variable draws exactly once, from the new values; and a turn that stops
    the loop changes nothing and draws nothing. *)
Theorem step_draws_new_state (st : loopState) (o : occurrence) :
  let '(st', effects, continue) := step ParseFloat st o in
  (st' <> st -> effects = [draw st'])
  /\ (effects = [] \/ effects = [draw st'] \/ effects = [Sync; draw st'])
  /\ (continue = false -> st' = st /\ effects = []).
Proof.
  destruct o as [x|[key r| |]|]; cbn [step].
  - split; [reflexivity|]. split; [auto|discriminate].
  - destruct (_ || _ || _ || _); [|destruct (_ || _)];
      (split; [try reflexivity; intros H; contradiction|]);
      (split; [auto|]); try discriminate; auto.
  - split; [intros H; contradiction|]. split; [auto|discriminate].
  - split; [intros H; contradiction|]. split; [auto|discriminate].
  - split; [intros H; contradiction|]. split; [auto|]. auto.
Qed.

(** X2.  The loop goes on exactly when the occurrence is not a quit; on a
    quit it ends at once, so that whatever follows the first quit is never
    sampled, applied or drawn. *)
Theorem loop_stops_at_quit (st : loopState) (os rest : list occurrence)
    (o : occurrence) :
  (step ParseFloat st o).2 = negb (quits o)
  /\ (quits o = true ->
      loop ParseFloat st (os ++ o :: rest) = loop ParseFloat st (os ++ [o])
      /\ loop ParseFloat st (o :: rest) = (st, [])).
Proof.
  split; [apply step_continue|]. intros Hq. split.
  - revert st. induction os as [|a os IH]; intros st; cbn [app loop].
    + rewrite (step_quit st o Hq). reflexivity.
    + destruct (step ParseFloat st a) as [[st' effs] [|]]; [|reflexivity].
      rewrite IH. reflexivity.
  - cbn [loop]. rewrite (step_quit st o Hq). reflexivity.
Qed.

Lemma step_invariant (st : loopState) (o : occurrence) :
  loopInvariant st -> loopInvariant (step ParseFloat st o).1.1.
Proof.
  intros (Hprev & Hkeys & Hneg).
  destruct o as [x|[key r| |]|]; cbn [step]; try (repeat split; assumption).
  - destruct (fetchStats ParseFloat x) as [err|stats]; cbn.
    + repeat split; assumption.
    + split; [right; reflexivity|]. split.
      * intros table key Ht Hk. exists stats. split; [reflexivity|].
        destruct (prevStats st) as [prev|]; injection Ht as <-.
        -- apply (rates_keys_current stats prev key Hk).
        -- rewrite lookup_empty in Hk. destruct Hk as [? [=]].
      * intros table key r Ht Hr.
        destruct (prevStats st) as [prev|]; injection Ht as <-.
        -- apply (rates_not_below_zero stats prev key r Hr).
        -- rewrite lookup_empty in Hr. discriminate.
  - destruct (_ || _ || _ || _); [repeat split; assumption|].
    destruct (_ || _); [|repeat split; assumption]. cbn.
    split; [left; reflexivity|]. split.
    + intros table k [= <-] Hk. rewrite lookup_empty in Hk. destruct Hk as [? [=]].
    + intros table k v [= <-] Hr. rewrite lookup_empty in Hr. discriminate.
Qed.

Lemma loop_invariant (os : list occurrence) : forall st : loopState,
  loopInvariant st -> loopInvariant (loop ParseFloat st os).1.
Proof.
  induction os as [|o os IH]; intros st Hst; cbn [loop]; [exact Hst|].
  pose proof (step_invariant st o Hst) as Hstep.
  destruct (step ParseFloat st o) as [[st' effs] [|]]; cbn in Hstep.
  - specialize (IH st' Hstep). destruct (loop ParseFloat st' os). exact IH.
  - exact Hstep.
Qed.

Lemma step_keeps_snapshot (st : loopState) (o : occurrence) :
  is_Some (currentStats st) -> is_Some (currentStats (step ParseFloat st o).1.1).
Proof.
  intros H. destruct o as [x|[key r| |]|]; cbn [step]; try exact H.
  - destruct (fetchStats ParseFloat x); cbn; [exact H|eexists; reflexivity].
  - destruct (_ || _ || _ || _); [exact H|]. destruct (_ || _); exact H.
Qed.

(** X3.  At every point of a run of [main], whatever the occurrences: the
    baseline snapshot is absent or is the snapshot on display; every key of
    the rate table is a numeric key of the snapshot on display; and no rate
    in the table is below zero. *)
Theorem main_invariant (os : list occurrence) :
  loopInvariant (main ParseFloat os).1.
Proof.
  unfold main.
  assert (H0 : loopInvariant initialState).
  { split; [left; reflexivity|]. split; intros; discriminate. }
  pose proof (loop_invariant os initialState H0) as H.
  destruct (loop ParseFloat initialState os). exact H.
Qed.

(** X4.  Once a snapshot is on display it stays on display: no later
    occurrence, be it a failed sample, a reset or a resize, takes the
    latest snapshot away. *)
Theorem loop_keeps_snapshot (os : list occurrence) (st : loopState) :
  is_Some (currentStats st) ->
  is_Some (currentStats (loop ParseFloat st os).1).
Proof.
  revert st. induction os as [|o os IH]; intros st Hst; cbn [loop]; [exact Hst|].
  pose proof (step_keeps_snapshot st o Hst) as Hstep.
  destruct (step ParseFloat st o) as [[st' effs] [|]]; cbn in Hstep.
  - specialize (IH st' Hstep). destruct (loop ParseFloat st' os). exact IH.
  - exact Hstep.
Qed.

(** X5.  A reset followed by a successful sample restarts the baseline:
    the rate table is empty, every rate reads as zero, the stored error is
    cleared, and the new snapshot is both the latest and the previous one.
    A second successful sample then yields the rates of the second against
    the first. *)
Theorem reset_then_samples (st : loopState) (x1 x2 : exchange)
    (s1 s2 : statsSnapshot) :
  fetchStats ParseFloat x1 = inr s1 ->
  fetchStats ParseFloat x2 = inr s2 ->
  let st1 := (loop ParseFloat st [resetKey; Tick x1]).1 in
  let st2 := (loop ParseFloat st [resetKey; Tick x1; Tick x2]).1 in
  st1 = {| currentStats := Some s1; prevStats := Some s1;
           rates := Some ∅; lastErr := None |}
  /\ (forall key, rateValue (rates st1) key = 0%float)
  /\ st2 = {| currentStats := Some s2; prevStats := Some s2;
              rates := Some (calculateRates (Some s2) (Some s1));
              lastErr := None |}.
Proof.
  intros H1 H2. cbn [loop resetKey step]. rewrite H1, H2. cbn.
  repeat split.
Qed.
End SchedulerMore.

(** X5 at the state that holds a snapshot, rates and an error, with the
    exchange of the repository's sampler test answered twice. *)
Lemma reset_then_samples_witness :
  exists s, fetchStats strconv.ParseFloat testExchange = inr s
    /\ (loop strconv.ParseFloat busyState [resetKey; Tick testExchange]).1
       = {| currentStats := Some s; prevStats := Some s;
            rates := Some ∅; lastErr := None |}
    /\ rates (loop strconv.ParseFloat busyState
                [resetKey; Tick testExchange; Tick testExchange]).1
       = Some ∅.
Proof.
  eexists. split; [reflexivity|].
  destruct (reset_then_samples strconv.ParseFloat busyState testExchange
              testExchange _ _ eq_refl eq_refl) as (H1 & _ & H2).
  split; [exact H1|]. rewrite H2. reflexivity.
Defined.

(** X4 at the state that holds a snapshot: a refused connection, a reset
    and a resize leave it on display. *)
Lemma loop_keeps_snapshot_witness :
  is_Some (currentStats busyState)
  /\ is_Some (currentStats
       (loop strconv.ParseFloat busyState
          [Tick refusedExchange; resetKey; Input EventResize]).1).
Proof.
  assert (H : is_Some (currentStats busyState)) by (eexists; reflexivity).
  split; [exact H|].
  exact (loop_keeps_snapshot strconv.ParseFloat _ busyState H).
Defined.

(** ** The sampler *)

Section SamplerMore.
Variable ParseFloat : string -> option float.
Implicit Types (line key value : string) (lines : list string).

Lemma beforeEnd_app_END (pre post : list string) :
  beforeEnd (pre ++ "END" :: post) = beforeEnd pre.
Proof.
  induction pre as [|l pre IH]; cbn [app beforeEnd].
  - reflexivity.
  - destruct (String.eqb l "END"); [reflexivity|]. rewrite IH. reflexivity.
Qed.

(** X6.  A sample returns the first failure among the connection, the
    deadline and the request, whatever the lines are; with these three in
    order, a response that runs out before any terminator line on a read
    error returns that error, not the lines read so far.  An error it
    returns is always one of the four the world reported; and when the
    world reports none, it returns a snapshot, whatever the lines are and
    whether a terminator is among them or not. *)
Theorem fetchStats_error (x : exchange) (e : error) :
  (dialErr x = Some e -> fetchStats ParseFloat x = inl e)
  /\ (dialErr x = None -> deadlineErr x = Some e ->
      fetchStats ParseFloat x = inl e)
  /\ (dialErr x = None -> deadlineErr x = None -> writeErr x = Some e ->
      fetchStats ParseFloat x = inl e)
  /\ (dialErr x = None -> deadlineErr x = None -> writeErr x = None ->
      "END" ∉ scanLines x -> scanErr x = Some e ->
      fetchStats ParseFloat x = inl e)
  /\ (fetchStats ParseFloat x = inl e ->
      dialErr x = Some e \/ deadlineErr x = Some e \/ writeErr x = Some e
      \/ scanErr x = Some e)
  /\ (dialErr x = None -> deadlineErr x = None -> writeErr x = None ->
      scanErr x = None ->
      exists s, fetchStats ParseFloat x = inr s).
Proof.
  unfold fetchStats.
  destruct (dialErr x) as [e1|].
  { repeat split; try discriminate; intros [= ->]; auto. }
  destruct (deadlineErr x) as [e2|].
  { repeat split; try discriminate; intros; try discriminate.
    - congruence.
    - right; left; congruence. }
  destruct (writeErr x) as [e3|].
  { repeat split; try discriminate; intros; try discriminate.
    - congruence.
    - right; right; left; congruence. }
  rewrite scanLoop_foldl. destruct (foldl _ _ _) as [values raw].
  repeat split; try discriminate.
  - intros _ _ _ _ He. rewrite He. reflexivity.
  - destruct (scanErr x) as [e4|]; [|discriminate].
    intros [= <-]. auto.
  - intros _ _ _ ->. eexists; reflexivity.
Qed.

(** X7.  Lines after the first terminator are never read into a snapshot:
    two successful samples whose responses agree up to a terminator line
    hold the same numeric and the same raw map, whatever follows it. *)
Theorem fetchStats_stops_at_terminator (x x' : exchange)
    (pre post post' : list string) (s s' : statsSnapshot) :
  scanLines x = pre ++ "END" :: post ->
  scanLines x' = pre ++ "END" :: post' ->
  fetchStats ParseFloat x = inr s ->
  fetchStats ParseFloat x' = inr s' ->
  Values s' = Values s /\ Raw s' = Raw s.
Proof.
  intros Hx Hx' Hs Hs'.
  rewrite (fetchStats_inr _ _ _ Hs), (fetchStats_inr _ _ _ Hs').
  cbn [Values Raw]. rewrite Hx, Hx', !beforeEnd_app_END. auto.
Qed.

Lemma foldl_statLine_raw_from lines key value :
  forall st : gmap string float * gmap string string,
  (foldl (fun st l => statLine ParseFloat l st) st lines).2 !! key = Some value ->
  st.2 !! key = Some value
  \/ exists line, line ∈ lines /\ accepted line = Some (key, value).
Proof.
  induction lines as [|l lines IH]; intros [values raw]; cbn [foldl].
  - auto.
  - intros H. destruct (IH _ H) as [H'|(line & Hin & Hacc)].
    + rewrite statLine_accepted in H'.
      destruct (accepted l) as [[k v]|] eqn:Hl; [|left; exact H'].
      cbn in H'. destruct (decide (k = key)) as [->|Hne].
      * rewrite lookup_insert_eq in H'. injection H' as ->.
        right. exists l. split; [constructor|exact Hl].
      * rewrite lookup_insert_ne in H' by exact Hne. left. exact H'.
    + right. exists line. split; [apply elem_of_cons; auto|exact Hacc].
Qed.

Lemma foldl_statLine_values_from lines key (number : float) :
  forall st : gmap string float * gmap string string,
  (foldl (fun st l => statLine ParseFloat l st) st lines).1 !! key = Some number ->
  st.1 !! key = Some number
  \/ exists line value, line ∈ lines /\ accepted line = Some (key, value)
                        /\ ParseFloat value = Some number.
Proof.
  induction lines as [|l lines IH]; intros [values raw]; cbn [foldl].
  - auto.
  - intros H. destruct (IH _ H) as [H'|(line & value & Hin & Hacc & Hp)].
    + rewrite statLine_accepted in H'.
      destruct (accepted l) as [[k v]|] eqn:Hl; [|left; exact H'].
      destruct (ParseFloat v) as [n|] eqn:Hv; cbn in H'; [|left; exact H'].
      destruct (decide (k = key)) as [->|Hne].
      * rewrite lookup_insert_eq in H'. injection H' as ->.
        right. exists l, v. split; [constructor|auto].
      * rewrite lookup_insert_ne in H' by exact Hne. left. exact H'.
    + right. exists line, value. split; [apply elem_of_cons; auto|auto].
Qed.

Lemma foldl_statLine_raw_keeps lines key :
  forall st : gmap string float * gmap string string,
  is_Some (st.2 !! key) ->
  is_Some ((foldl (fun st l => statLine ParseFloat l st) st lines).2 !! key).
Proof.
  induction lines as [|l lines IH]; intros [values raw] H; cbn [foldl]; [exact H|].
  apply IH. rewrite statLine_accepted.
  destruct (accepted l) as [[k v]|]; [|exact H]. cbn.
  destruct (decide (k = key)) as [->|Hne].
  - rewrite lookup_insert_eq. eexists; reflexivity.
  - rewrite lookup_insert_ne by exact Hne. exact H.
Qed.

Lemma foldl_statLine_raw_has lines line key value :
  line ∈ lines -> accepted line = Some (key, value) ->
  forall st : gmap string float * gmap string string,
  is_Some ((foldl (fun st l => statLine ParseFloat l st) st lines).2 !! key).
Proof.
  intros Hin Hacc. induction Hin as [line lines|line l lines _ IH];
    intros [values raw]; cbn [foldl].
  - apply foldl_statLine_raw_keeps. rewrite statLine_accepted, Hacc. cbn.
    rewrite lookup_insert_eq. eexists; reflexivity.
  - apply IH. exact Hacc.
Qed.

(** X8.  A snapshot holds nothing but what accepted lines before the
    terminator carried: a key is in the raw map exactly when such a line
    has it as its key; the raw value of a key is the value of one of these
    lines; and the numeric value of a key is what [ParseFloat] returned for
    the value of one of them. *)
Theorem fetchStats_entries (x : exchange) (s : statsSnapshot) (key : string) :
  fetchStats ParseFloat x = inr s ->
  (is_Some (Raw s !! key)
   <-> exists line value, line ∈ beforeEnd (scanLines x)
                          /\ accepted line = Some (key, value))
  /\ (forall value, Raw s !! key = Some value ->
        exists line, line ∈ beforeEnd (scanLines x)
                     /\ accepted line = Some (key, value))
  /\ (forall number, Values s !! key = Some number ->
        exists line value, line ∈ beforeEnd (scanLines x)
                           /\ accepted line = Some (key, value)
                           /\ ParseFloat value = Some number).
Proof.
  intros H. rewrite (fetchStats_inr _ _ _ H). cbn [Raw Values].
  assert (Hraw : forall value,
    (foldl (fun st l => statLine ParseFloat l st) (∅, ∅)
       (beforeEnd (scanLines x))).2 !! key = Some value ->
    exists line, line ∈ beforeEnd (scanLines x) /\ accepted line = Some (key, value)).
  { intros value Hv.
    destruct (foldl_statLine_raw_from _ _ _ _ Hv) as [H0|H1]; [|exact H1].
    cbn in H0. rewrite lookup_empty in H0. discriminate. }
  split; [split|split].
  - intros [value Hv]. destruct (Hraw value Hv) as (line & Hin & Hacc).
    exists line, value. auto.
  - intros (line & value & Hin & Hacc).
    apply (foldl_statLine_raw_has _ line key value Hin Hacc).
  - exact Hraw.
  - intros number Hn.
    destruct (foldl_statLine_values_from _ _ _ _ Hn) as [H0|H1]; [|exact H1].
    cbn in H0. rewrite lookup_empty in H0. discriminate.
Qed.

Lemma statLine_values_unparsed line key
    (values : gmap string float) (raw : gmap string string) :
  (forall v, accepted line = Some (key, v) -> ParseFloat v = None) ->
  (statLine ParseFloat line (values, raw)).1 !! key = values !! key.
Proof.
  intros H. rewrite statLine_accepted.
  destruct (accepted line) as [[k v]|]; [|reflexivity].
  destruct (decide (k = key)) as [->|Hne].
  - rewrite (H v eq_refl). reflexivity.
  - destruct (ParseFloat v); cbn; [apply lookup_insert_ne; exact Hne|reflexivity].
Qed.

Lemma foldl_statLine_values_unparsed lines key :
  Forall (fun l => forall v, accepted l = Some (key, v) -> ParseFloat v = None) lines ->
  forall st : gmap string float * gmap string string,
  (foldl (fun st l => statLine ParseFloat l st) st lines).1 !! key = st.1 !! key.
Proof.
  induction 1 as [|l lines Hl _ IH]; intros [values raw]; cbn [foldl].
  - reflexivity.
  - rewrite IH. apply statLine_values_unparsed. exact Hl.
Qed.

(** X9.  The numeric map keeps, for each key, the number of the last
    accepted line whose value is one: a later line for the same key whose
    value is not a number replaces the raw value but leaves the earlier
    number in the numeric map. *)
Theorem fetchStats_keeps_last_number (x : exchange) (s : statsSnapshot)
    (pre post : list string) (line key value : string) (number : float) :
  fetchStats ParseFloat x = inr s ->
  beforeEnd (scanLines x) = pre ++ line :: post ->
  accepted line = Some (key, value) ->
  ParseFloat value = Some number ->
  Forall (fun l => forall v, accepted l = Some (key, v) -> ParseFloat v = None)
    post ->
  Values s !! key = Some number.
Proof.
  intros H Hlines Hacc Hnum Hpost. rewrite (fetchStats_inr _ _ _ H). cbn [Values].
  rewrite Hlines, foldl_app. cbn [foldl].
  rewrite (foldl_statLine_values_unparsed post key Hpost).
  destruct (foldl _ _ pre) as [values raw].
  rewrite statLine_accepted, Hacc, Hnum. apply lookup_insert_eq.
Qed.
End SamplerMore.

(** X7 on two exchanges that differ after the terminator only. *)
Lemma fetchStats_stops_at_terminator_witness :
  exists s s',
    fetchStats strconv.ParseFloat cutExchange = inr s
    /\ fetchStats strconv.ParseFloat staleExchange = inr s'
    /\ Values s' = Values s /\ Raw s' = Raw s.
Proof.
  eexists. eexists. split; [reflexivity|]. split; [reflexivity|].
  exact (fetchStats_stops_at_terminator strconv.ParseFloat cutExchange
           staleExchange ["STAT threads 4"; "STAT threads many"] []
           ["STAT threads 9"] _ _ eq_refl eq_refl eq_refl eq_refl).
Defined.

(** X8 on the exchange of the repository's sampler test: the raw value of
    the version key comes from the version line. *)
Lemma fetchStats_entries_witness :
  exists s, fetchStats strconv.ParseFloat testExchange = inr s
    /\ exists line, line ∈ beforeEnd (scanLines testExchange)
                    /\ accepted line = Some ("version", "1.6.9").
Proof.
  eexists. split; [reflexivity|].
  apply (fetchStats_entries strconv.ParseFloat testExchange _ "version" eq_refl).
  reflexivity.
Defined.

(** X9 on an exchange that sends 4 and then a word for one key: the
    numeric map keeps 4 while the raw map holds the word. *)
Lemma fetchStats_keeps_last_number_witness :
  exists s, fetchStats strconv.ParseFloat staleExchange = inr s
    /\ Values s !! "threads" = Some 4%float
    /\ Raw s !! "threads" = Some "many".
Proof.
  eexists. split; [reflexivity|]. split; [|reflexivity].
  apply (fetchStats_keeps_last_number strconv.ParseFloat staleExchange _
           [] ["STAT threads many"] "STAT threads 4" "threads" "4" 4%float
           eq_refl eq_refl eq_refl eq_refl).
  repeat constructor. intros v Hacc.
  assert (E : accepted "STAT threads many" = Some ("threads", "many"))
    by reflexivity.
  rewrite E in Hacc. injection Hacc as <-. reflexivity.
Defined.

(** X6 on an exchange whose lines end with a read error before any
    terminator, and on one whose connection is refused. *)
Lemma fetchStats_error_witness :
  fetchStats strconv.ParseFloat brokenExchange = inl "i/o timeout"
  /\ fetchStats strconv.ParseFloat refusedExchange = inl "connection refused".
Proof.
  split.
  - apply (proj1 (proj2 (proj2 (proj2
             (fetchStats_error strconv.ParseFloat brokenExchange "i/o timeout")))));
      try reflexivity.
    intros H. apply elem_of_cons in H as [[=]|H].
    apply elem_of_cons in H as [[=]|H]. inversion H.
  - apply (proj1 (fetchStats_error strconv.ParseFloat refusedExchange
                    "connection refused")).
    reflexivity.
Defined.

(** ** The shape of keys *)

Section Tokens.
Variable ParseFloat : string -> option float.

Lemma cont_ge (lo hi : Z) (s : string) (b : Z) (t : string) :
  128 <= lo -> utf8.cont lo hi s = Some (b, t) ->
  exists c, s = String c t /\ 128 <= byteVal c.
Proof.
  unfold utf8.cont. intros Hlo. destruct s as [|c s']; [discriminate|].
  destruct (Z.leb_spec lo (byteVal c)); [|discriminate].
  destruct (_ <=? _); [|discriminate]. intros [= _ <-].
  exists c. split; [reflexivity|lia].
Qed.

Lemma DecodeRuneInString_cont (c : ascii) (s : string) (r : rune) (size : nat) :
  utf8.DecodeRuneInString (String c s) = (r, size) ->
  contBytes (size - 1) s /\ (byteVal c < 128 -> r = byteVal c).
Proof.
  unfold utf8.DecodeRuneInString.
  destruct (Z.ltb_spec (byteVal c) 128) as [Hlt|Hge].
  { intros [= <- <-]. split; [exact I|reflexivity]. }
  intros H. split; [|lia]. revert H.
  repeat match goal with
         | |- context [if ?b then _ else _] => destruct b
         end;
    repeat match goal with
           | |- context [utf8.cont ?lo ?hi ?t] =>
               let E := fresh "E" in
               destruct (utf8.cont lo hi t) as [[? ?]|] eqn:E;
               [apply cont_ge in E as (? & -> & ?); [|lia]|]
           end;
    intros [= <- <-]; cbn [Nat.sub contBytes]; auto.
Qed.

Lemma hasSpaceByte_app (w : string) (c : ascii) :
  hasSpaceByte (w +:+ String c EmptyString) = hasSpaceByte w || isSpaceByte c.
Proof.
  induction w as [|a w IH]; simpl.
  - destruct (isSpaceByte c); reflexivity.
  - rewrite IH, orb_assoc. reflexivity.
Qed.

Lemma isSpaceByte_IsSpace (c : ascii) :
  isSpaceByte c = true -> byteVal c < 128 /\ unicode.IsSpace (byteVal c) = true.
Proof.
  unfold isSpaceByte, unicode.IsSpace. cbv zeta. intros H.
  split.
  - apply orb_prop in H as [H|H]; [apply andb_prop in H as [_ H]|]; lia.
  - rewrite H. reflexivity.
Qed.

Lemma token_append (cur : option string) (c : ascii) :
  (forall w, cur = Some w -> token w) -> isSpaceByte c = false ->
  token (match cur with Some w => w | None => EmptyString end +:+ String c EmptyString).
Proof.
  intros Hcur Hc. split; [destruct cur as [[|]|]; discriminate|].
  rewrite hasSpaceByte_app, Hc, orb_false_r.
  destruct cur as [w|]; [apply (Hcur w eq_refl)|reflexivity].
Qed.

Lemma fieldsFrom_tokens (s : string) :
  forall (skip : nat) (sp : bool) (cur : option string),
  contBytes skip s -> (forall w, cur = Some w -> token w) ->
  Forall token (strings.fieldsFrom unicode.IsSpace skip sp cur s).
Proof.
  induction s as [|c s IH]; intros skip sp cur Hskip Hcur.
  - cbn [strings.fieldsFrom].
    destruct cur as [w|]; [constructor; [apply Hcur; reflexivity|]|]; constructor.
  - cbn [strings.fieldsFrom].
    assert (Hnext : forall sp' skip', contBytes skip' s ->
              (sp' = false -> isSpaceByte c = false) ->
              Forall token
                (if sp' then
                   match cur with
                   | Some w => w :: strings.fieldsFrom unicode.IsSpace skip' sp' None s
                   | None => strings.fieldsFrom unicode.IsSpace skip' sp' None s
                   end
                 else strings.fieldsFrom unicode.IsSpace skip' sp'
                        (Some (match cur with Some w => w | None => EmptyString end
                               +:+ String c EmptyString)) s)).
    { intros sp' skip' Hs Hc. destruct sp'.
      - destruct cur as [w|]; [constructor; [auto|]|]; apply IH; auto; discriminate.
      - apply IH; [exact Hs|]. intros w [= <-]. apply token_append; auto. }
    destruct skip as [|k].
    + destruct (utf8.DecodeRuneInString (String c s)) as [r size] eqn:Hdec.
      apply DecodeRuneInString_cont in Hdec as [Hc Hr].
      apply Hnext; [exact Hc|]. intros Hsp.
      destruct (isSpaceByte c) eqn:Hb; [|reflexivity].
      apply isSpaceByte_IsSpace in Hb as [Hlt Hb]. rewrite (Hr Hlt) in Hsp. congruence.
    + cbn [contBytes] in Hskip. destruct Hskip as [Hge Hk].
      apply Hnext; [exact Hk|]. intros _.
      destruct (isSpaceByte c) eqn:Hb; [|reflexivity].
      apply isSpaceByte_IsSpace in Hb as [Hlt _]. lia.
Qed.

Lemma Fields_tokens (line : string) : Forall token (strings.Fields line).
Proof. apply fieldsFrom_tokens; [exact I|discriminate]. Qed.

Lemma Join_nonempty (v : string) (rest : list string) (sep : string) :
  v <> EmptyString -> strings.Join (v :: rest) sep <> EmptyString.
Proof.
  intros Hv. cbn [strings.Join]. destruct rest; [exact Hv|].
  destruct v; [congruence|discriminate].
Qed.

Lemma accepted_token (line key value : string) :
  accepted line = Some (key, value) -> token key /\ value <> EmptyString.
Proof.
  unfold accepted. pose proof (Fields_tokens line) as HF.
  destruct (strings.Fields line) as [|marker [|k [|v rest]]]; try discriminate.
  destruct (String.eqb marker "STAT"); [|discriminate].
  intros [= <- <-]. inversion HF as [|? ? _ HF1]; subst.
  inversion HF1 as [|? ? Hk HF2]; subst. inversion HF2 as [|? ? Hv _]; subst.
  split; [exact Hk|apply Join_nonempty, Hv].
Qed.

(** X20.  Every key of a snapshot, in the raw map and in the numeric map,
    is a token: it is not empty and holds no space, tab or line break; and
    no raw value is empty.  So the empty text the renderer shows for a
    missing raw value is never a value the server sent. *)
Theorem fetchStats_keys_are_tokens (x : exchange) (s : statsSnapshot)
    (key : string) :
  fetchStats ParseFloat x = inr s ->
  (forall value, Raw s !! key = Some value ->
     key <> EmptyString /\ hasSpaceByte key = false /\ value <> EmptyString)
  /\ (forall number, Values s !! key = Some number ->
        key <> EmptyString /\ hasSpaceByte key = false).
Proof.
  intros H. rewrite (fetchStats_inr _ _ _ H). cbn [Raw Values]. split.
  - intros value Hv.
    destruct (foldl_statLine_raw_from _ _ _ _ _ Hv) as [H0|(line & _ & Hacc)].
    { cbn in H0. rewrite lookup_empty in H0. discriminate. }
    destruct (accepted_token _ _ _ Hacc) as [[Hk Hs] Hval]. auto.
  - intros number Hv.
    destruct (foldl_statLine_values_from _ _ _ _ _ Hv)
      as [H0|(line & value & _ & Hacc & _)].
    { cbn in H0. rewrite lookup_empty in H0. discriminate. }
    destruct (accepted_token _ _ _ Hacc) as [[Hk Hs] _]. auto.
Qed.
End Tokens.

(** X20 on the exchange of the repository's sampler test, for the version
    key. *)
Lemma fetchStats_keys_are_tokens_witness :
  exists s, fetchStats strconv.ParseFloat testExchange = inr s
    /\ Raw s !! "version" = Some "1.6.9"
    /\ "version" <> EmptyString /\ hasSpaceByte "version" = false
    /\ "1.6.9" <> EmptyString.
Proof.
  eexists. split; [reflexivity|]. split; [reflexivity|].
  exact (proj1 (fetchStats_keys_are_tokens strconv.ParseFloat testExchange _
                  "version" eq_refl) "1.6.9" eq_refl).
Defined.

(** ** The rate engine and the formatters *)

Section RatesMore.
Lemma SFltb_irrefl (x : spec_float) : SFltb x x = false.
Proof.
  unfold SFltb. destruct x as [s|[]| |[] m e]; simpl; try reflexivity;
    rewrite Z.compare_refl, Pos.compare_cont_refl; reflexivity.
Qed.

Lemma is_finite_spec (x : float) :
  is_finite x = true ->
  (exists s, Prim2SF x = S754_zero s) \/ (exists s m e, Prim2SF x = S754_finite s m e).
Proof.
  unfold is_finite, is_infinity, is_nan.
  rewrite !FloatAxioms.eqb_spec, abs_spec.
  change (Prim2SF infinity) with (S754_infinity false).
  destruct (Prim2SF x) as [s|[]| |s m e]; simpl; try discriminate; intros _;
    [left|right]; repeat eexists.
Qed.

Lemma SFsub_diag (x : spec_float) :
  (exists s, x = S754_zero s) \/ (exists s m e, x = S754_finite s m e) ->
  SF64sub x x = S754_zero false.
Proof.
  intros [[s ->]|(s & m & e & ->)]; [destruct s; reflexivity|].
  unfold SF64sub, SFsub. rewrite Z.sub_diag. reflexivity.
Qed.

(** Zero divided by a positive number is zero. *)
Lemma zero_div_positive (e : float) :
  (0 <? e)%float = true -> (0 / e)%float = 0%float.
Proof.
  intros He. apply Prim2SF_inj. rewrite div_spec.
  rewrite FloatAxioms.ltb_spec in He. revert He.
  change (Prim2SF 0) with (S754_zero false).
  destruct (Prim2SF e) as [s|[]| |[] m x]; simpl; try discriminate; reflexivity.
Qed.

Lemma sub_diag_finite (c : float) : is_finite c = true -> (c - c)%float = 0%float.
Proof.
  intros Hc. apply Prim2SF_inj. rewrite sub_spec.
  apply SFsub_diag. apply is_finite_spec. exact Hc.
Qed.

Lemma ltb_irrefl (c : float) : (c <? c)%float = false.
Proof. rewrite FloatAxioms.ltb_spec. apply SFltb_irrefl. Qed.

Lemma positive_not_leb_zero (x : float) :
  (0 <? x)%float = true -> (x <=? 0)%float = false.
Proof.
  rewrite FloatAxioms.ltb_spec, FloatAxioms.leb_spec.
  change (Prim2SF 0) with (S754_zero false).
  destruct (Prim2SF x) as [s|[]| |[] m e]; simpl; try discriminate; reflexivity.
Qed.

(** X10.  Over a positive number of elapsed seconds, a key whose value
    dropped has the rate zero exactly, and so has a key whose value is
    finite and did not change. *)
Theorem calculateRates_zero_rate (curr prev : statsSnapshot) (key : string)
    (c p : float) :
  (0 <? elapsedSeconds curr prev)%float = true ->
  Values curr !! key = Some c ->
  Values prev !! key = Some p ->
  (c <? p)%float = true \/ (c = p /\ is_finite c = true) ->
  calculateRates (Some curr) (Some prev) !! key = Some 0%float.
Proof.
  intros He Hc Hp Hcase.
  rewrite (calculateRates_lookup _ _ _ (positive_not_leb_zero _ He)), Hc, Hp.
  f_equal. unfold rateOf. destruct Hcase as [Hlt|[<- Hfin]].
  - rewrite Hlt. apply zero_div_positive. exact He.
  - rewrite ltb_irrefl, (sub_diag_finite c Hfin). apply zero_div_positive. exact He.
Qed.

(** X11.  What the renderer reads from the rate table: nothing below zero,
    and zero for a nil table and for every key that is missing from the
    numeric map of either snapshot. *)
Theorem rateValue_reads (oc op : option statsSnapshot) (key : string) :
  rateValue None key = 0%float
  /\ (rateValue (Some (calculateRates oc op)) key <? 0)%float = false
  /\ ((forall curr, oc = Some curr -> Values curr !! key = None)
      \/ (forall prev, op = Some prev -> Values prev !! key = None) ->
      rateValue (Some (calculateRates oc op)) key = 0%float).
Proof.
  split; [reflexivity|].
  assert (Hempty : rateValue (Some ∅) key = 0%float)
    by (unfold rateValue; rewrite lookup_empty; reflexivity).
  destruct oc as [curr|]; [destruct op as [prev|]|].
  2: { rewrite calculateRates_absent_prev, Hempty. split; reflexivity. }
  2: { rewrite calculateRates_absent_curr, Hempty. split; reflexivity. }
  destruct (elapsedSeconds curr prev <=? 0)%float eqn:He.
  { rewrite (calculateRates_no_interval _ _ He), Hempty. split; reflexivity. }
  unfold rateValue. rewrite (calculateRates_lookup _ _ _ He).
  destruct (Values curr !! key) as [c|] eqn:Hc;
    [destruct (Values prev !! key) as [p|] eqn:Hp|];
    cbn [default from_option id].
  - split.
    + rewrite FloatAxioms.ltb_spec. change (Prim2SF 0) with (S754_zero false).
      destruct (rateOf_not_negative c p _ He) as [|[]| |]; reflexivity.
    + intros [H|H]; [specialize (H curr eq_refl)|specialize (H prev eq_refl)];
        congruence.
  - split; reflexivity.
  - split; reflexivity.
Qed.
End RatesMore.

(** X10 at the repository's test: the evictions dropped from 6 to 4. *)
Lemma calculateRates_zero_rate_witness :
  (0 <? elapsedSeconds currSample prevSample)%float = true
  /\ (4 <? 6)%float = true
  /\ calculateRates (Some currSample) (Some prevSample) !! "evictions"
     = Some 0%float.
Proof.
  split; [reflexivity|]. split; [reflexivity|].
  exact (calculateRates_zero_rate currSample prevSample "evictions" 4 6
           eq_refl eq_refl eq_refl (or_introl eq_refl)).
Defined.

Section FormatMore.
(** The loop returns the value divided by 1024 once per unit it passed,
    NaN included. *)
Lemma scaleBytes_scaled (remaining : nat) : forall (b : float) (idx : nat),
  exists k : nat,
    (k <= remaining)%nat
    /\ scaleBytes remaining b idx = (scaled b k, (idx + k)%nat).
Proof.
  induction remaining as [|n IH]; intros b idx; cbn [scaleBytes].
  - exists 0%nat. rewrite Nat.add_0_r. split; [lia|reflexivity].
  - destruct (1024 <=? b)%float.
    + destruct (IH (b / 1024)%float (S idx)) as (k & Hk & Heq).
      exists (S k). split; [lia|]. rewrite Heq. cbn [scaled]. f_equal. lia.
    + exists 0%nat. rewrite Nat.add_0_r. split; [lia|reflexivity].
Qed.

(** Dividing by 1024 never takes a value below zero. *)
Lemma scaled_not_below_zero (k : nat) : forall b : float,
  (b <? 0)%float = false -> (scaled b k <? 0)%float = false.
Proof.
  induction k as [|k IH]; intros b Hb; cbn [scaled]; [exact Hb|].
  apply IH. rewrite FloatAxioms.ltb_spec in *. rewrite div_spec.
  change (Prim2SF 0) with (S754_zero false) in *.
  assert (Hd : not_negative (SF64div (Prim2SF b) (Prim2SF 1024))).
  { apply SFdiv_not_negative; [apply SFltb_zero_false; exact Hb|reflexivity]. }
  destruct Hd as [|[]| |]; reflexivity.
Qed.

(** X12.  Every input below zero, infinite or not, is rendered as "0 B",
    and as "0 B/s" when it is a rate.  Whatever the input, NaN included,
    the rendering is a value printed with the verb [%.0f] for the unit B
    and [%.1f] for every other unit, one space, and one of the six units;
    the value printed is the input, with zero in place of an input below
    zero, divided by 1024 once per unit passed, and it is never below
    zero. *)
Theorem formatBytes_units (b : float) :
  ((b <? 0)%float = true ->
   formatBytes b = "0 B" /\ formatBytesRate b = "0 B/s")
  /\ exists (v : float) (idx : nat) (unit : string),
       units !! idx = Some unit
       /\ formatBytes b
          = fmt.verb_f (if (idx =? 0)%nat then 0 else 1) v +:+ " " +:+ unit
       /\ v = scaled (if (b <? 0)%float then 0%float else b) idx
       /\ (v <? 0)%float = false.
Proof.
  split.
  - intros H. unfold formatBytesRate, formatBytes. rewrite H. split; reflexivity.
  - unfold formatBytes.
    set (b0 := if (b <? 0)%float then 0%float else b).
    assert (Hb0 : (b0 <? 0)%float = false).
    { unfold b0. destruct (b <? 0)%float eqn:E; [reflexivity|exact E]. }
    destruct (scaleBytes_scaled (length units - 1) b0 0) as (k & Hk & ->).
    change (length units - 1)%nat with 5%nat in Hk. cbn [Nat.add].
    assert (Hu : exists unit, units !! k = Some unit /\ nth k units "" = unit).
    { do 6 (destruct k as [|k]; [eexists; split; reflexivity|]). lia. }
    destruct Hu as (unit & Hu & ->).
    exists (scaled b0 k), k, unit. split; [exact Hu|].
    split; [destruct (k =? 0)%nat; reflexivity|].
    split; [reflexivity|apply scaled_not_below_zero, Hb0].
Qed.
End FormatMore.

(** X12 at minus infinity. *)
Lemma formatBytes_units_witness :
  (neg_infinity <? 0)%float = true
  /\ formatBytes neg_infinity = "0 B"
  /\ formatBytesRate neg_infinity = "0 B/s".
Proof.
  split; [reflexivity|].
  exact (proj1 (formatBytes_units neg_infinity) eq_refl).
Defined.

Section DrawingMore.
Lemma drawRunes_edges (width x y : Z) (style : Style) (items : list (Z * rune)) :
  Forall (fun w => cellY w = y /\ cellX w < width /\ cellStyle w = style)
    (drawRunes width x y style items)
  /\ (length (drawRunes width x y style items) <= length items)%nat.
Proof.
  induction items as [|[i r] rest [IH1 IH2]]; cbn [drawRunes].
  - split; [constructor|reflexivity].
  - destruct (Z.leb_spec width (Int64.add x i)) as [Hge|Hlt].
    + split; [constructor|simpl; lia].
    + split; [constructor; [simpl; auto|exact IH1]|simpl; lia].
Qed.

(** X13.  Whatever its arguments, wrap-around included, [drawText] never
    sets a cell at or beyond the right edge, nor on a row other than [y],
    nor when [y] is outside the rows of the screen; it sets at most one
    cell per rune of the text, each with the style it was given, and none
    for an empty text. *)
Theorem drawText_edges (width height x y : Z) (style : Style) (text : string) :
  Forall (fun w => cellY w = y /\ 0 <= y < height /\ cellX w < width
                   /\ cellStyle w = style)
    (drawText (width, height) x y style text)
  /\ (length (drawText (width, height) x y style text)
      <= length (rangeString text))%nat
  /\ (y < 0 \/ height <= y \/ text = "" ->
      drawText (width, height) x y style text = []).
Proof.
  unfold drawText.
  destruct (Z.ltb_spec y 0) as [Hy|Hy].
  { split; [constructor|]. split; [simpl; lia|reflexivity]. }
  destruct (Z.leb_spec height y) as [Hh|Hh].
  { split; [constructor|]. split; [simpl; lia|reflexivity]. }
  destruct (drawRunes_edges width x y style (rangeString text)) as [H1 H2].
  split; [|split; [exact H2|]].
  - eapply Forall_impl; [exact H1|]. intros w (Hw1 & Hw2 & Hw3). auto.
  - intros [H|[H|E]]; [lia|lia|rewrite E; reflexivity].
Qed.
End DrawingMore.

(** ** The renderer *)

Section RendererMore.
Lemma cont_inv (lo hi : Z) (s : string) (b : Z) (t : string) :
  utf8.cont lo hi s = Some (b, t) -> exists c, s = String c t.
Proof.
  unfold utf8.cont. destruct s as [|c s']; [discriminate|].
  destruct (_ && _); [|discriminate]. intros [= _ <-]. eexists; reflexivity.
Qed.

(** Without wrap-around the columns stay at or after the starting one:
    when a rune is written its column is below [width], so that the column
    of the next rune, at most four further, is still an [int]. *)
Lemma drawRunes_rangeFrom_columns (width x y : Z) (style : Style) (s : string) :
  0 <= x -> width <= Int64.max_int - 3 ->
  forall (i : Z) (skip : nat),
  0 <= i -> x + i + Z.of_nat skip <= Int64.max_int ->
  Forall (fun w => x <= cellX w) (drawRunes width x y style (rangeFrom i skip s)).
Proof.
  intros Hx Hw. induction s as [|c s IH]; intros i skip Hi Hmax; cbn [rangeFrom].
  - constructor.
  - destruct skip as [|k].
    + pose proof (DecodeRuneInString_size c s) as Hsize.
      destruct (utf8.DecodeRuneInString (String c s)) as [r size].
      cbn [snd] in Hsize. cbn [drawRunes]. unfold Int64.add.
      rewrite wrap_in_range
        by (unfold Int64.in_range, Int64.min_int, Int64.max_int in *; lia).
      destruct (Z.leb_spec width (x + i)) as [Hge|Hlt]; [constructor|].
      constructor; [simpl; lia|]. apply IH; lia.
    + apply IH; lia.
Qed.

Lemma drawText_on_screen_cells (width height x y : Z) (style : Style)
    (text : string) :
  0 <= x <= Int64.max_int ->
  width <= Int64.max_int - 3 ->
  Forall (fun w => onScreen (width, height) w /\ x <= cellX w)
    (drawText (width, height) x y style text).
Proof.
  intros Hx Hw. unfold drawText.
  destruct (Z.ltb_spec y 0) as [Hy|Hy]; [constructor|].
  destruct (Z.leb_spec height y) as [Hh|Hh]; [constructor|].
  pose proof (drawRunes_rangeFrom_columns width x y style text
                (proj1 Hx) Hw 0 0%nat ltac:(lia) ltac:(lia)) as Hcol.
  destruct (drawRunes_edges width x y style (rangeString text)) as [Hedge _].
  unfold rangeString in *.
  induction Hcol as [|w ws Hc _ IH]; [constructor|].
  inversion Hedge as [|? ? (Hy' & Hx' & _) Hrest]; subst.
  constructor; [|exact (IH Hrest)].
  unfold onScreen. cbn [fst snd]. lia.
Qed.

(** X14.  On a screen narrower than the largest [int] by four columns or
    more, [drawText] with a starting column that is a non-negative [int]
    sets cells of the screen only, whatever the text and its length: every
    cell lies at or after the starting column, before the right edge, and
    on a row of the screen. *)
Theorem drawText_on_screen (width height x y : Z) (style : Style)
    (text : string) :
  0 <= x <= Int64.max_int ->
  width <= Int64.max_int - 3 ->
  Forall (fun w => onScreen (width, height) w /\ x <= cellX w)
    (drawText (width, height) x y style text).
Proof. exact (drawText_on_screen_cells width height x y style text). Qed.

Lemma drawRunes_ascii (width x y : Z) (style : Style) (s : string) :
  isASCII s = true ->
  forall i : Z,
  0 <= x + i -> x + i + Z.of_nat (String.length s) <= Int64.max_int ->
  drawRunes width x y style (rangeFrom i 0 s)
  = cellsFrom (x + i) y style
      (take (Z.to_nat (width - (x + i))) (String.list_ascii_of_string s)).
Proof.
  induction s as [|c s IH]; intros Hs i Hlo Hhi; cbn [rangeFrom].
  - cbn [String.list_ascii_of_string]. rewrite take_nil. reflexivity.
  - cbn [isASCII] in Hs. apply andb_prop in Hs as [Hc Hs].
    cbn [String.length] in Hhi.
    unfold utf8.DecodeRuneInString. rewrite Hc. cbn [drawRunes Nat.sub].
    unfold Int64.add. rewrite wrap_in_range
      by (unfold Int64.in_range, Int64.min_int, Int64.max_int in *; lia).
    cbn [String.list_ascii_of_string].
    destruct (Z.leb_spec width (x + i)) as [Hge|Hlt].
    + replace (Z.to_nat (width - (x + i))) with 0%nat by lia. reflexivity.
    + replace (Z.to_nat (width - (x + i)))
        with (S (Z.to_nat (width - (x + (i + 1))))) by lia.
      cbn [take cellsFrom]. f_equal.
      rewrite (IH Hs (i + 1)) by lia. f_equal. lia.
Qed.

(** X16.  For a text of ASCII characters, [drawText] sets exactly the
    first [width - x] characters, one per column from [x] on, along row
    [y]; the rest of the text is dropped.  (The starting column is not
    negative, the column after the last character is an [int], and the
    row is one of the screen.) *)
Theorem drawText_ascii (width height x y : Z) (style : Style) (text : string) :
  isASCII text = true ->
  0 <= x ->
  x + Z.of_nat (String.length text) <= Int64.max_int ->
  0 <= y < height ->
  drawText (width, height) x y style text
  = cellsFrom x y style
      (take (Z.to_nat (width - x)) (String.list_ascii_of_string text)).
Proof.
  intros Ha Hx Hlen [Hy Hh]. unfold drawText.
  rewrite (proj2 (Z.ltb_ge y 0) Hy), (proj2 (Z.leb_gt height y) Hh).
  unfold rangeString. rewrite (drawRunes_ascii width x y style text Ha 0) by lia.
  rewrite Z.add_0_r. reflexivity.
Qed.

(** The controls text on a row of the screen. *)
Lemma drawRunes_ascii_text (width height y : Z) (style : Style) :
  0 <= y < height ->
  drawText (width, height) 0 y style controlsText
  = cellsFrom 0 y style
      (take (Z.to_nat (width - 0)) (String.list_ascii_of_string controlsText)).
Proof.
  intros [Hy Hh]. unfold drawText.
  rewrite (proj2 (Z.ltb_ge y 0) Hy), (proj2 (Z.leb_gt height y) Hh).
  unfold rangeString.
  rewrite (drawRunes_ascii width 0 y style controlsText eq_refl 0);
    [reflexivity|lia|].
  unfold Int64.max_int. cbn. lia.
Qed.

Variable durationString : time.Duration -> string.
Variable formatTimestamp : time.Time -> string.
Variable StyleDefault : Style.
Variable Bold : Style -> bool -> Style.

Lemma drawText_zero_on_screen (size : Z * Z) (y : Z) (style : Style)
    (text : string) :
  size.1 <= Int64.max_int - 3 ->
  Forall (onScreen size) (drawText size 0 y style text).
Proof.
  destruct size as [width height]. cbn [fst]. intros Hw.
  eapply Forall_impl;
    [apply (drawText_on_screen_cells width height 0 y style text)|].
  - unfold Int64.max_int. lia.
  - exact Hw.
  - intros w [H _]. exact H.
Qed.

Lemma drawLines_on_screen (size : Z * Z) (lines : list (string * Z)) :
  size.1 <= Int64.max_int - 3 ->
  forall line : Z, Forall (onScreen size) (drawLines StyleDefault size line lines).
Proof.
  intros Hw. induction lines as [|[text advance] rest IH]; intros line;
    cbn [drawLines]; [constructor|].
  apply Forall_app. split; [apply drawText_zero_on_screen; exact Hw|apply IH].
Qed.

(** X15.  [drawScreen] clears the screen first and shows it last, and in
    between only sets cells; on an empty screen it sets none; and on a
    screen narrower than the largest [int] by four columns or more every
    cell it sets lies on the screen, whatever the address, the snapshot,
    the rates and the error hold. *)
Theorem drawScreen_on_screen (size : Z * Z) (addr : string)
    (interval : time.Duration) (stats : option statsSnapshot)
    (rates : option (gmap string float)) (err : option error) :
  exists cells : list cellWrite,
    drawScreen durationString formatTimestamp StyleDefault Bold
      size addr interval stats rates err
    = Clear :: (Content <$> cells) ++ [Show]
    /\ (size.2 <= 0 \/ size.1 <= 0 -> cells = [])
    /\ (size.1 <= Int64.max_int - 3 -> Forall (onScreen size) cells).
Proof.
  destruct size as [width height]. unfold drawScreen. cbn [fst snd].
  destruct (Z.leb_spec height 0) as [Hh|Hh]; cbn [orb].
  { exists []. repeat split. constructor. }
  destruct (Z.leb_spec width 0) as [Hw|Hw].
  { exists []. repeat split. constructor. }
  destruct err as [e|]; (eexists; split; [reflexivity|]);
    (split; [intros [H|H]; lia|]); intros Hmax;
    repeat (apply Forall_app; split);
    try (apply drawText_zero_on_screen; exact Hmax);
    try (destruct stats; [apply drawLines_on_screen; exact Hmax|]);
    try (destruct (2 <? height));
    try (apply drawText_zero_on_screen; exact Hmax); constructor.
Qed.

Lemma frame_split (t e b c : list cellWrite) :
  Clear :: (Content <$> t ++ e ++ b ++ c) ++ [Show]
  = (Clear :: (Content <$> t ++ e ++ b)) ++ (Content <$> c) ++ [Show].
Proof.
  rewrite !(app_assoc t), (app_assoc (t ++ e)), (fmap_app _ ((t ++ e) ++ b)).
  cbn [app]. rewrite <- app_assoc. reflexivity.
Qed.

(** X17.  On a screen of three rows or more, the last cells [drawScreen]
    sets before it shows the screen are the first [width] characters of
    the controls text, in the highlight style, one per column along the
    bottom row: whatever else was drawn there, the bottom row ends up
    showing the controls. *)
Theorem drawScreen_controls_last (width height : Z) (addr : string)
    (interval : time.Duration) (stats : option statsSnapshot)
    (rates : option (gmap string float)) (err : option error) :
  2 < height <= Int64.max_int ->
  0 < width ->
  exists before : list screenCall,
    drawScreen durationString formatTimestamp StyleDefault Bold
      (width, height) addr interval stats rates err
    = before
      ++ (Content <$> cellsFrom 0 (height - 1) (Bold StyleDefault true)
            (take (Z.to_nat width) (String.list_ascii_of_string controlsText)))
      ++ [Show].
Proof.
  intros [Hh Hmax] Hw. unfold drawScreen.
  rewrite (proj2 (Z.leb_gt height 0)) by lia.
  rewrite (proj2 (Z.leb_gt width 0)) by lia. cbn [orb].
  rewrite (proj2 (Z.ltb_lt 2 height) Hh).
  assert (Hsub : Int64.sub height 1 = height - 1).
  { apply wrap_in_range.
    unfold Int64.in_range, Int64.min_int, Int64.max_int in *. lia. }
  rewrite Hsub.
  assert (Hctl : drawText (width, height) 0 (height - 1) (Bold StyleDefault true)
                   "Controls: q to quit | r to reset rate baseline"
                 = cellsFrom 0 (height - 1) (Bold StyleDefault true)
                     (take (Z.to_nat width)
                        (String.list_ascii_of_string controlsText))).
  { change "Controls: q to quit | r to reset rate baseline" with controlsText.
    rewrite drawRunes_ascii_text; [rewrite Z.sub_0_r; reflexivity|lia]. }
  rewrite Hctl.
  destruct err as [e|]; rewrite frame_split; eexists; reflexivity.
Qed.
End RendererMore.

(** X14 on a screen five columns wide, with a text of three-byte runes
    starting in the second column. *)
Lemma drawText_on_screen_witness :
  0 <= 1 <= Int64.max_int
  /\ 5 <= Int64.max_int - 3
  /\ Forall (fun w => onScreen (5, 3) w /\ 1 <= cellX w)
       (drawText (5, 3) 1 2 0 "€€€")
  /\ length (drawText (5, 3) 1 2 0 "€€€") = 2%nat.
Proof.
  assert (H0 : 0 <= 1 <= Int64.max_int) by (unfold Int64.max_int; lia).
  assert (H1 : 5 <= Int64.max_int - 3) by (unfold Int64.max_int; lia).
  split; [exact H0|]. split; [exact H1|].
  split; [exact (drawText_on_screen 5 3 1 2 0 "€€€" H0 H1)|reflexivity].
Defined.

(** X16 for a text longer than the screen is wide: the first five
    characters are set and the rest is dropped. *)
Lemma drawText_ascii_witness :
  isASCII "memtop 11211" = true
  /\ 0 <= 0
  /\ 0 + Z.of_nat (String.length "memtop 11211") <= Int64.max_int
  /\ 0 <= 1 < 3
  /\ drawText (5, 3) 0 1 7 "memtop 11211"
     = cellsFrom 0 1 7 (String.list_ascii_of_string "memto").
Proof.
  assert (Ha : isASCII "memtop 11211" = true) by reflexivity.
  assert (Hx : 0 <= 0) by lia.
  assert (Hlen : 0 + Z.of_nat (String.length "memtop 11211") <= Int64.max_int)
    by (vm_compute; discriminate).
  assert (Hy : 0 <= 1 < 3) by lia.
  split; [exact Ha|]. split; [exact Hx|]. split; [exact Hlen|]. split; [exact Hy|].
  exact (drawText_ascii 5 3 0 1 7 "memtop 11211" Ha Hx Hlen Hy).
Defined.

(** X17 on a screen of ten columns and four rows, for the snapshot and the
    rates of the repository's render test: the bottom row ends up showing
    the first ten characters of the controls text. *)
Lemma drawScreen_controls_last_witness :
  2 < 4 <= Int64.max_int
  /\ 0 < 10
  /\ exists before : list screenCall,
       drawScreen (fun _ => "2s") (fun _ => "2024-01-02 03:04:05") 0
         (fun style b => if b then Z.lor style 1 else style)
         (10, 4) "127.0.0.1:11211" (2 * time.Second)
         (Some renderSample) (Some renderRates) None
       = before
         ++ (Content <$> cellsFrom 0 3 1 (String.list_ascii_of_string "Controls: "))
         ++ [Show].
Proof.
  assert (Hh : 2 < 4 <= Int64.max_int) by (split; [lia|vm_compute; discriminate]).
  assert (Hw : 0 < 10) by lia.
  split; [exact Hh|]. split; [exact Hw|].
  exact (drawScreen_controls_last (fun _ => "2s") (fun _ => "2024-01-02 03:04:05") 0
           (fun style b => if b then Z.lor style 1 else style)
           10 4 "127.0.0.1:11211" (2 * time.Second)
           (Some renderSample) (Some renderRates) None Hh Hw).
Defined.

(** ** The clock *)

Section ClockMore.
Lemma digits2_pos_iter_xO (p k : positive) :
  digits2_pos (Pos.iter xO p k) = (digits2_pos p + k)%positive.
Proof.
  induction k as [|k IH] using Pos.peano_ind.
  - simpl. lia.
  - rewrite Pos.iter_succ. cbn [digits2_pos]. rewrite IH. lia.
Qed.

(** A mantissa of 53 bits with an exponent in the normal range is left as
    it is by the rounding. *)
Lemma binary_round_aux_exact (s : bool) (m : positive) (e : Z) :
  Z.pos (digits2_pos m) = 53 -> -1074 <= e <= 971 ->
  binary_round_aux prec emax s (Z.pos m) e loc_Exact = S754_finite s m e.
Proof.
  intros Hd He. unfold binary_round_aux, shr_fexp. cbn [Zdigits2 shr_record_of_loc].
  assert (Hf : fexp prec emax (Z.pos (digits2_pos m) + e) - e = 0).
  { rewrite Hd. unfold fexp, SpecFloat.emin, prec, emax. lia. }
  rewrite Hf. cbn [shr shr_m loc_of_shr_record round_nearest_even Zdigits2].
  rewrite Hf. cbn [shr shr_m].
  replace (e <=? emax - prec) with true
    by (symmetry; apply Z.leb_le; unfold emax, prec; lia).
  reflexivity.
Qed.

(** The conversion of a non-zero integer below 2^53 is exact: a normal
    number of the integer's sign. *)
Lemma binary_round_small (s : bool) (p : positive) :
  Z.pos p < 2 ^ 53 ->
  exists m e, binary_round prec emax s p 0 = S754_finite s m e
              /\ Z.pos (digits2_pos m) = 53 /\ -52 <= e <= 0.
Proof.
  intros Hp. pose proof (digits2_pos_lower p) as Hlo.
  assert (Hd : 1 <= Z.pos (digits2_pos p) <= 53).
  { split; [lia|]. destruct (Z.le_gt_cases (Z.pos (digits2_pos p)) 53) as [H|H]; [exact H|].
    assert (2 ^ 53 <= 2 ^ (Z.pos (digits2_pos p) - 1))
      by (apply Z.pow_le_mono_r; lia). lia. }
  unfold binary_round, shl_align.
  replace (fexp prec emax (Z.pos (digits2_pos p) + 0)) with (Z.pos (digits2_pos p) - 53)
    by (unfold fexp, SpecFloat.emin, prec, emax; lia).
  destruct (Z.pos (digits2_pos p) - 53 - 0) as [|k|k] eqn:Hk; try lia.
  - exists p, 0. split; [apply binary_round_aux_exact; lia|lia].
  - exists (Pos.iter xO p k), (Z.pos (digits2_pos p) - 53).
    assert (Hdk : Z.pos (digits2_pos (Pos.iter xO p k)) = 53)
      by (rewrite digits2_pos_iter_xO; lia).
    split; [apply binary_round_aux_exact; lia|lia].
Qed.

Lemma normal_bounded (m : positive) (e : Z) :
  Z.pos (digits2_pos m) = 53 -> -1074 <= e <= 971 -> bounded prec emax m e = true.
Proof.
  intros Hd He. unfold bounded, canonical_mantissa. apply andb_true_intro. split.
  - apply Z.eqb_eq. rewrite Hd. unfold fexp, SpecFloat.emin, prec, emax. lia.
  - apply Z.leb_le. unfold emax, prec. lia.
Qed.

(** [float64(n)] for a small integer [n]: zero for zero, and otherwise a
    normal number with the sign of [n]. *)
Lemma float64_of_int_small (z : Z) :
  - 2 ^ 53 < z < 2 ^ 53 ->
  match z with
  | Z0 => Prim2SF (float64_of_int z) = S754_zero false
  | Z.pos _ => exists m e, Prim2SF (float64_of_int z) = S754_finite false m e
                           /\ Z.pos (digits2_pos m) = 53 /\ -52 <= e <= 0
  | Z.neg _ => exists m e, Prim2SF (float64_of_int z) = S754_finite true m e
                           /\ Z.pos (digits2_pos m) = 53 /\ -52 <= e <= 0
  end.
Proof.
  intros Hz. unfold float64_of_int. destruct z as [|p|p]; cbn [binary_normalize].
  - reflexivity.
  - destruct (binary_round_small false p ltac:(lia)) as (m & e & -> & Hd & He).
    exists m, e. split; [|auto]. apply Prim2SF_SF2Prim. apply normal_bounded; lia.
  - destruct (binary_round_small true p ltac:(lia)) as (m & e & -> & Hd & He).
    exists m, e. split; [|auto]. apply Prim2SF_SF2Prim. apply normal_bounded; lia.
Qed.
Lemma float64_of_int_signed (z : Z) :
  z <> 0 -> - 2 ^ 53 < z < 2 ^ 53 ->
  exists m e, Prim2SF (float64_of_int z) = S754_finite (z <? 0) m e
              /\ Z.pos (digits2_pos m) = 53 /\ -52 <= e <= 0.
Proof.
  intros Hz Hr. pose proof (float64_of_int_small z Hr) as H.
  destruct z as [|p|p]; [congruence|exact H|exact H].
Qed.

Lemma SFdiv_by_1e9 (s : bool) (m : positive) (e : Z) :
  Z.pos (digits2_pos m) = 53 -> -52 <= e <= 0 ->
  signed_nonzero s
    (SF64div (S754_finite s m e) (S754_finite false 8388608000000000 (-23))).
Proof.
  intros Hd He. unfold SF64div, SFdiv, SFdiv_core_binary. cbv zeta.
  cbn [Zdigits2]. rewrite Hd.
  change (Z.pos (digits2_pos 8388608000000000)) with 53.
  replace (Z.min (fexp prec emax (53 + e - (53 + -23))) (e - -23)) with (e - 30)
    by (unfold fexp, SpecFloat.emin, prec, emax; lia).
  replace (e - -23 - (e - 30)) with 53 by lia.
  pose proof (digits2_pos_lower m) as Hlo. rewrite Hd in Hlo.
  change (2 ^ (53 - 1)) with 4503599627370496 in Hlo.
  pose proof (Z_div_mod (Z.shiftl (Z.pos m) 53) 8388608000000000 eq_refl) as Hdiv.
  rewrite Z.shiftl_mul_pow2 in Hdiv by lia.
  change (2 ^ 53) with 9007199254740992 in Hdiv.
  rewrite Z.shiftl_mul_pow2 by lia. change (2 ^ 53) with 9007199254740992.
  destruct (Z.div_eucl (Z.pos m * 9007199254740992) 8388608000000000) as [q r].
  destruct q as [|q|q]; try lia.
  replace (xorb s false) with s by (destruct s; reflexivity).
  apply binary_round_aux_nonzero. unfold SpecFloat.emin, prec, emax. lia.
Qed.

Lemma nanoseconds_signed (z : Z) :
  z <> 0 -> - 2 ^ 53 < z < 2 ^ 53 ->
  signed_nonzero (z <? 0) (Prim2SF (float64_of_int z / 1e9)).
Proof.
  intros Hz Hr. rewrite div_spec.
  destruct (float64_of_int_signed z Hz Hr) as (m & e & -> & Hd & He).
  change (Prim2SF 1e9) with (S754_finite false 8388608000000000 (-23)).
  apply SFdiv_by_1e9; assumption.
Qed.

Lemma signed_nonzero_valid (s : bool) (x : spec_float) :
  signed_nonzero s x -> valid_binary x = true ->
  match x with S754_finite _ _ e => SpecFloat.emin prec emax <= e | _ => True end.
Proof.
  intros [m e|] Hv; [|exact I]. simpl in Hv. apply bounded_inv in Hv. apply Hv.
Qed.

Lemma SFadd_signed (s : bool) (x y : spec_float) :
  valid_binary x = true -> valid_binary y = true ->
  signed_nonzero s x -> signed_nonzero s y ->
  signed_nonzero s (SF64add x y).
Proof.
  intros Hx Hy Sx Sy.
  pose proof (signed_nonzero_valid s x Sx Hx) as Ex.
  pose proof (signed_nonzero_valid s y Sy Hy) as Ey.
  destruct Sx as [mx ex|], Sy as [my ey|]; unfold SF64add, SFadd.
  - cbv zeta. destruct s; cbn [cond_Zopp Z.opp Z.add binary_normalize];
      apply binary_round_nonzero; lia.
  - constructor.
  - constructor.
  - destruct s; constructor.
Qed.

Lemma SFadd_zero_l (s : bool) (y : spec_float) :
  signed_nonzero s y -> signed_nonzero s (SF64add (S754_zero false) y).
Proof. intros [m e|]; constructor. Qed.

Lemma SFadd_zero_r (s : bool) (x : spec_float) :
  signed_nonzero s x -> signed_nonzero s (SF64add x (S754_zero false)).
Proof. intros [m e|]; constructor. Qed.

Lemma signed_nonzero_leb_zero (s : bool) (x : float) :
  signed_nonzero s (Prim2SF x) -> (x <=? 0)%float = s.
Proof.
  rewrite FloatAxioms.leb_spec. change (Prim2SF 0) with (S754_zero false).
  intros H. destruct H, s; reflexivity.
Qed.

Lemma quot_rem_signs (d : Z) :
  Int64.min_int <= d <= Int64.max_int ->
  let q := Z.quot d 1000000000 in
  let r := Z.rem d 1000000000 in
  d = 1000000000 * q + r
  /\ - 2 ^ 34 < q < 2 ^ 34 /\ - 1000000000 < r < 1000000000
  /\ (0 <= d -> 0 <= q /\ 0 <= r) /\ (d <= 0 -> q <= 0 /\ r <= 0).
Proof.
  intros Hr q r. unfold Int64.min_int, Int64.max_int in Hr.
  change (2 ^ 63) with 9223372036854775808 in Hr.
  change (2 ^ 34) with 17179869184.
  pose proof (Z.quot_rem' d 1000000000) as Hqr. fold q r in Hqr.
  pose proof (Z.rem_bound_abs d 1000000000 ltac:(lia)) as Hb. fold r in Hb.
  assert (Hs : (0 <= d -> 0 <= q /\ 0 <= r) /\ (d <= 0 -> q <= 0 /\ r <= 0)).
  { split; intros H0.
    - split; [apply Z.quot_pos; lia|apply Z.rem_nonneg; lia].
    - pose proof (Z.quot_opp_l d 1000000000 ltac:(lia)) as Ho.
      pose proof (Z.quot_pos (- d) 1000000000 ltac:(lia) ltac:(lia)).
      pose proof (Z.rem_opp_l d 1000000000 ltac:(lia)) as Hro.
      pose proof (Z.rem_nonneg (- d) 1000000000 ltac:(lia) ltac:(lia)).
      fold q in Ho. fold r in Hro. lia. }
  split; [exact Hqr|]. split; [|split; [|exact Hs]]; lia.
Qed.

Lemma Seconds_signed (d : Z) :
  d <> 0 -> Int64.min_int <= d <= Int64.max_int ->
  signed_nonzero (d <? 0) (Prim2SF (time.Seconds d)).
Proof.
  intros Hd Hr. destruct (quot_rem_signs d Hr) as (Hqr & Hq & Hn & Hpos & Hneg).
  unfold time.Seconds. cbv zeta. unfold Int64.quot, Int64.rem.
  change time.Second with 1000000000.
  set (q := Z.quot d 1000000000) in *. set (r := Z.rem d 1000000000) in *.
  change (2 ^ 34) with 17179869184 in Hq.
  rewrite wrap_in_range
    by (unfold Int64.in_range, Int64.min_int, Int64.max_int;
        change (2 ^ 63) with 9223372036854775808; lia).
  rewrite add_spec.
  assert (Hsq : q <> 0 -> (q <? 0) = (d <? 0)).
  { intros Hq0. destruct (Z.ltb_spec d 0); [apply Z.ltb_lt|apply Z.ltb_ge]; lia. }
  assert (Hsr : r <> 0 -> (r <? 0) = (d <? 0)).
  { intros Hr0. destruct (Z.ltb_spec d 0); [apply Z.ltb_lt|apply Z.ltb_ge]; lia. }
  destruct (Z.eq_dec q 0) as [Hq0|Hq0]; [|destruct (Z.eq_dec r 0) as [Hr0|Hr0]].
  - rewrite Hq0. change (Prim2SF (float64_of_int 0)) with (S754_zero false).
    apply SFadd_zero_l. rewrite <- Hsr by lia.
    apply nanoseconds_signed; [lia|]. change (2 ^ 53) with 9007199254740992. lia.
  - rewrite Hr0.
    replace (Prim2SF (float64_of_int 0 / 1e9)) with (S754_zero false)
      by (vm_compute; reflexivity).
    apply SFadd_zero_r. rewrite <- Hsq by exact Hq0.
    destruct (float64_of_int_signed q Hq0) as (m & e & -> & _).
    { change (2 ^ 53) with 9007199254740992. lia. }
    constructor.
  - apply SFadd_signed; try apply Prim2SF_valid.
    + rewrite <- Hsq by exact Hq0.
      destruct (float64_of_int_signed q Hq0) as (m & e & -> & _).
      { change (2 ^ 53) with 9007199254740992. lia. }
      constructor.
    + rewrite <- Hsr by exact Hr0.
      apply nanoseconds_signed; [lia|]. change (2 ^ 53) with 9007199254740992. lia.
Qed.

Lemma Seconds_leb_zero (d : Z) :
  Int64.min_int <= d <= Int64.max_int ->
  (time.Seconds d <=? 0)%float = (d <=? 0).
Proof.
  intros Hr. destruct (Z.eq_dec d 0) as [->|Hd]; [vm_compute; reflexivity|].
  rewrite (signed_nonzero_leb_zero _ _ (Seconds_signed d Hd Hr)).
  destruct (Z.ltb_spec d 0), (Z.leb_spec d 0); try reflexivity; lia.
Qed.

Lemma Sub_leb_zero (t u : Z) :
  Int64.min_int <= time.Sub t u <= Int64.max_int
  /\ (time.Sub t u <=? 0) = (t <=? u).
Proof.
  unfold time.Sub, time.minDuration, time.maxDuration, Int64.min_int, Int64.max_int.
  change (2 ^ 63) with 9223372036854775808.
  repeat match goal with
         | |- context [?a <? ?b] => destruct (Z.ltb_spec a b)
         end;
    (split; [lia|]);
    destruct (Z.leb_spec t u); try (apply Z.leb_le; lia); apply Z.leb_gt; lia.
Qed.

Lemma elapsedSeconds_leb_zero (curr prev : statsSnapshot) :
  (elapsedSeconds curr prev <=? 0)%float = (Timestamp curr <=? Timestamp prev).
Proof.
  unfold elapsedSeconds.
  destruct (Sub_leb_zero (Timestamp curr) (Timestamp prev)) as [Hr <-].
  apply Seconds_leb_zero, Hr.
Qed.

(** X18.  The elapsed seconds of the rate engine, computed in floating
    point from the saturated difference of the two clock readings, are at
    most zero exactly when the current reading is not later than the
    previous one: no rounding turns a positive interval, one nanosecond
    included, into zero, nor a negative one into a positive one. *)
Theorem elapsedSeconds_sign (curr prev : statsSnapshot) :
  (elapsedSeconds curr prev <=? 0)%float = (Timestamp curr <=? Timestamp prev).
Proof. apply elapsedSeconds_leb_zero. Qed.

(** X19.  The rate table by the clock readings: it is empty when the
    current snapshot is not later than the previous one, and otherwise it
    has an entry for exactly the keys that have a number in both
    snapshots. *)
Theorem calculateRates_by_timestamps (curr prev : statsSnapshot) (key : string) :
  calculateRates (Some curr) (Some prev) !! key
  = if Timestamp curr <=? Timestamp prev then None
    else match Values curr !! key, Values prev !! key with
         | Some c, Some p => Some (rateOf c p (elapsedSeconds curr prev))
         | _, _ => None
         end.
Proof.
  pose proof (elapsedSeconds_leb_zero curr prev) as He.
  destruct (Timestamp curr <=? Timestamp prev).
  - rewrite (calculateRates_no_interval curr prev He). apply lookup_empty.
  - apply calculateRates_lookup, He.
Qed.
End ClockMore.
